(** * pip4a: the dependency checker and the uninstaller

    A shallow embedding of [src/pip4a/checker.py] and
    [src/pip4a/uninstaller.py].  Python methods become functions in a
    state-and-exception monad: the state holds what the method can change
    (the emitted records, the attribute [_collections_missing], the
    collection tree on disk), an exception ends the computation and keeps
    the state reached so far. *)

From Stdlib Require Import Ascii.
From stdpp Require Import base strings gmap list pretty.
Set Warnings "-register-all".
Open Scope string_scope.
Open Scope list_scope.

(** ** Python values shared by both files *)

(** The exceptions the two files can meet.  [OSError] stands for every
    [OSError] that is neither of its two subclasses listed before it. *)
Inductive exn :=
| CalledProcessError (cmd : string) (returncode : Z)
| FileNotFoundError (filename : string)
| NotADirectoryError (filename : string)
| OSError (msg : string)
| ValueError (msg : string)
| AttributeError (msg : string)
| JSONDecodeError (msg : string)
| InvalidSpecifier (msg : string)
| InvalidVersion (msg : string)
| RuntimeError (msg : string)
| ExternalError (msg : string).

(** [signal.Signals(n).name] for the signals that Linux defines. *)
Definition signal_name (n : Z) : option string :=
  match n with
  | 1 => Some "SIGHUP" | 2 => Some "SIGINT" | 3 => Some "SIGQUIT"
  | 4 => Some "SIGILL" | 5 => Some "SIGTRAP" | 6 => Some "SIGABRT"
  | 7 => Some "SIGBUS" | 8 => Some "SIGFPE" | 9 => Some "SIGKILL"
  | 10 => Some "SIGUSR1" | 11 => Some "SIGSEGV" | 12 => Some "SIGUSR2"
  | 13 => Some "SIGPIPE" | 14 => Some "SIGALRM" | 15 => Some "SIGTERM"
  | 16 => Some "SIGSTKFLT" | 17 => Some "SIGCHLD" | 18 => Some "SIGCONT"
  | 19 => Some "SIGSTOP" | 20 => Some "SIGTSTP" | 21 => Some "SIGTTIN"
  | 22 => Some "SIGTTOU" | 23 => Some "SIGURG" | 24 => Some "SIGXCPU"
  | 25 => Some "SIGXFSZ" | 26 => Some "SIGVTALRM" | 27 => Some "SIGPROF"
  | 28 => Some "SIGWINCH" | 29 => Some "SIGIO" | 30 => Some "SIGPWR"
  | 31 => Some "SIGSYS" | 34 => Some "SIGRTMIN" | 64 => Some "SIGRTMAX"
  | _ => None
  end%Z.

(** [str(exc)], as an f-string renders it.  A negative exit status stands
    for a signal and is shown as the [repr] of the signal's enum member,
    when it has one. *)
Definition exn_str (e : exn) : string :=
  match e with
  | CalledProcessError cmd rc =>
      if decide (rc < 0)%Z then
        match signal_name (- rc) with
        | Some name =>
            "Command '" +:+ cmd +:+ "' died with <Signals." +:+ name +:+ ": "
            +:+ pretty (- rc)%Z +:+ ">."
        | None =>
            "Command '" +:+ cmd +:+ "' died with unknown signal "
            +:+ pretty (- rc)%Z +:+ "."
        end
      else "Command '" +:+ cmd +:+ "' returned non-zero exit status " +:+ pretty rc +:+ "."
  | FileNotFoundError f => "[Errno 2] No such file or directory: '" +:+ f +:+ "'"
  | NotADirectoryError f => "[Errno 20] Not a directory: '" +:+ f +:+ "'"
  | OSError m | ValueError m | AttributeError m | JSONDecodeError m
  | InvalidSpecifier m | InvalidVersion m | RuntimeError m | ExternalError m => m
  end.

(** [isinstance(e, OSError)]: the class and its subclasses. *)
Definition is_OSError (e : exn) : bool :=
  match e with
  | FileNotFoundError _ | NotADirectoryError _ | OSError _ => true
  | _ => false
  end.

Inductive level := DEBUG | INFO | WARNING | CRITICAL.

(** What a run emits, in order: records of the logger, the two
    presentation helpers of [utils], commands handed to a shell and files
    opened for reading. *)
Inductive event :=
| Log (lvl : level) (msg : string)
| Hint (msg : string)
| Note (msg : string)
| Exec (command : string)
| OpenFile (path : string).

#[global] Instance level_eq_dec : EqDecision level.
Proof. solve_decision. Defined.
#[global] Instance event_eq_dec : EqDecision event.
Proof. solve_decision. Defined.
#[global] Instance exn_eq_dec : EqDecision exn.
Proof. solve_decision. Defined.

(** ** The monad *)

Inductive result (A : Type) := Return (a : A) | Raise (e : exn).
Arguments Return {A} a.
Arguments Raise {A} e.

Definition M (S A : Type) : Type := S → result A * S.

#[global] Instance M_ret S : MRet (M S) := λ A a s, (Return a, s).
#[global] Instance M_bind S : MBind (M S) := λ A B f m s,
  match m s with
  | (Return a, s') => f a s'
  | (Raise e, s') => (Raise e, s')
  end.

Definition raise {S A} (e : exn) : M S A := λ s, (Raise e, s).

(** A pure computation that may raise, run inside the monad. *)
Definition lift {S A} (r : result A) : M S A := λ s, (r, s).

(** [try: body except <handled>: handler]. *)
Definition try_except {S A} (body : M S A) (handled : exn → bool)
    (handler : exn → M S A) : M S A := λ s,
  match body s with
  | (Raise e, s') => if handled e then handler e s' else (Raise e, s')
  | r => r
  end.

(** A [for] loop that carries a local variable through its body. *)
Fixpoint foldM {S A B} (f : A → B → M S B) (l : list A) (b : B) : M S B :=
  match l with
  | [] => mret b
  | a :: l' => b' ← f a b; foldM f l' b'
  end.

(** A [for] loop whose body returns nothing. *)
Fixpoint forM_ {S A} (f : A → M S unit) (l : list A) : M S unit :=
  match l with
  | [] => mret tt
  | a :: l' => _ ← f a; forM_ f l'
  end.

(** ** Python strings *)

(** [s.split(c)] for a one-character separator. *)
Fixpoint split_on (c : Ascii.ascii) (s : string) : list string :=
  match s with
  | "" => [""]
  | String a s' =>
      if Ascii.eqb a c then "" :: split_on c s'
      else match split_on c s' with
           | w :: ws => String a w :: ws
           | [] => [String a ""]
           end
  end.

(** [s.count(c)]. *)
Fixpoint count_char (c : Ascii.ascii) (s : string) : nat :=
  match s with
  | "" => 0
  | String a s' => (if Ascii.eqb a c then 1 else 0) + count_char c s'
  end.

(** [sep.join(words)] is [String.concat sep words]; [s.startswith(p)] is
    [String.prefix p s]. *)
Definition startswith (s p : string) : bool := String.prefix p s.

(** [s.rfind(c)], [None] for Python's -1. *)
Fixpoint rfind (c : Ascii.ascii) (s : string) : option nat :=
  match s with
  | "" => None
  | String a s' =>
      match rfind c s' with
      | Some i => Some (S i)
      | None => if Ascii.eqb a c then Some 0 else None
      end
  end.

(** [needle in haystack] on strings. *)
Fixpoint occurs_in (needle haystack : string) : bool :=
  String.prefix needle haystack ||
  match haystack with
  | "" => false
  | String _ h' => occurs_in needle h'
  end.

(** [str.isspace] on one ASCII character: tab to carriage return, the
    four separators 28-31 and the blank. *)
Definition is_space (a : Ascii.ascii) : bool :=
  let n := nat_of_ascii a in
  ((9 <=? n) && (n <=? 13) || (28 <=? n) && (n <=? 32))%nat.

(** The other characters [str.isspace] accepts, as the bytes of their
    UTF-8 encoding: U+0085 and U+00A0, ... *)
Definition is_space2 (a b : Ascii.ascii) : bool :=
  (nat_of_ascii a =? 194)%nat
  && ((nat_of_ascii b =? 133) || (nat_of_ascii b =? 160))%nat.

(** ... U+1680, U+2000 to U+200A, U+2028, U+2029, U+202F, U+205F and
    U+3000. *)
Definition is_space3 (a b c : Ascii.ascii) : bool :=
  let '(x, y, z) := (nat_of_ascii a, nat_of_ascii b, nat_of_ascii c) in
  ((x =? 225) && (y =? 154) && (z =? 128)
   || (x =? 226) && (y =? 128)
      && ((128 <=? z) && (z <=? 138) || (z =? 168) || (z =? 169) || (z =? 175))
   || (x =? 226) && (y =? 129) && (z =? 159)
   || (x =? 227) && (y =? 128) && (z =? 128))%nat.

(** [s.lstrip()] *)
Fixpoint lstrip (s : string) : string :=
  match s with
  | "" => ""
  | String a s1 =>
      if is_space a then lstrip s1
      else
        match s1 with
        | String b s2 =>
            if is_space2 a b then lstrip s2
            else
              match s2 with
              | String c s3 => if is_space3 a b c then lstrip s3 else s
              | "" => s
              end
        | "" => s
        end
  end.

(** [s.rstrip()]: what is left of a character is dropped when it is
    white space to the end. *)
Fixpoint rstrip (s : string) : string :=
  match s with
  | "" => ""
  | String a s' => if decide (lstrip s = "") then "" else String a (rstrip s')
  end.

(** [s.strip()] *)
Definition strip (s : string) : string := rstrip (lstrip s).

(** ** The version library

    [packaging.specifiers.SpecifierSet] and [packaging.version.Version]
    are imported from outside the repository.  How one version string and
    one comparison clause are parsed and compared is left open, as an
    interface; the set of clauses is modelled below. *)
Class Packaging := {
  version_t : Type;
  clause_t : Type;
  (** [Version(s)]: raises [InvalidVersion] on a malformed string. *)
  Version : string → result version_t;
  (** One clause, operator and version: raises [InvalidSpecifier]. *)
  Specifier : string → result clause_t;
  (** [Version.is_prerelease]: a development or pre-release version. *)
  is_prerelease : version_t → bool;
  (** [Specifier.prereleases]: the clause names a pre-release itself. *)
  clause_prereleases : clause_t → bool;
  (** The operator of the clause, applied to the version. *)
  clause_contains : clause_t → version_t → bool;
}.

Module Checker.
Section WithPackaging.
Context `{Packaging}.

(** Modelled from the spec: the constraint set of the version library,
    which is not part of the repository's sources.  The spec's words: a
    version constraint is a set of comparison clauses (operator +
    version), written like [>=1.0,<2.0], combined with AND semantics,
    with the single query whether a version satisfies the set.  The
    library splits the string at the commas, strips each piece and
    leaves out the blank ones. *)
Fixpoint parse_clauses (l : list string) : result (list clause_t) :=
  match l with
  | [] => Return []
  | s :: l' =>
      match Specifier s with
      | Raise e => Raise e
      | Return c =>
          match parse_clauses l' with
          | Raise e => Raise e
          | Return cs => Return (c :: cs)
          end
      end
  end.

Definition SpecifierSet (specifiers : string) : result (list clause_t) :=
  parse_clauses
    (filter (λ s, s ≠ "") (map strip (split_on ","%char specifiers))).

(** [SpecifierSet.prereleases] of a set built without the keyword: some
    clause names a pre-release ([None] for the empty set, which is
    falsy). *)
Definition prereleases (spec : list clause_t) : bool :=
  existsb clause_prereleases spec.

(** [SpecifierSet.contains(item)], as the checker calls it, with the
    library's default for pre-releases (releases up to 25 of the
    library): a pre-release is contained in no set unless one of the
    clauses names a pre-release; otherwise every clause must hold. *)
Definition contains (spec : list clause_t) (item : version_t) : bool :=
  if negb (prereleases spec) && is_prerelease item then false
  else forallb (λ c, clause_contains c item) spec.

(** *** Data *)

(** Modelled from the spec: the value [collect_manifests] of [utils],
    which is not among the sources, holds for one installed collection.
    The spec's words: a collection manifest record has a version
    (semantic version string) and a dependencies mapping from dependent
    collection name to a version-constraint expression.  It stands for
    [details["collection_info"]]; a manifest that lacks one of the keys
    is not represented. *)
Record manifest := {
  version : string;
  dependencies : list (string * string);
}.

(** The dict returned by [collect_manifests], in insertion order. *)
Definition universe := list (string * manifest).

(** [collections[name]], [None] when [name not in collections]. *)
Fixpoint collections_get (collections : universe) (name : string)
    : option manifest :=
  match collections with
  | [] => None
  | (k, v) :: rest =>
      if decide (k = name) then Some v else collections_get rest name
  end.

(** [details["collection_info"]["version"]] *)
Definition installed_version (details : manifest) : string := version details.

(** Modelled from the spec: the report that pip writes.  The spec's
    words: a structured document with a top-level install list, each
    item holding metadata.name and metadata.version.  An entry is
    recorded as its [metadata] object; an entry that lacks one of the
    keys is not represented. *)
Record package_metadata := { name : string; pkg_version : string }.

(** The parsed [pip-report.txt]: [install] is [None] when the key is
    absent. *)
Record pip_report := { install : option (list package_metadata) }.

Inductive file_content :=
  | Absent
  | NotJSON (msg : string)
  | Document (doc : pip_report).

Record Config := {
  site_pkg_collections_path : string;
  venv_cache_dir : string;
  venv_interpreter : string;
  discovered_python_reqs : string;
  verbose : bool;
}.

(** What the collaborators outside this file answer during one run. *)
Record Env := {
  (** [collect_manifests(target, venv_cache_dir)] *)
  collect_manifests : string → string → universe;
  (** [builder_introspect(config)]: [Some e] when it raises [e] *)
  builder_introspect : Config → option exn;
  (** exit status of a command handed to [subprocess_run] *)
  exit_status : string → Z;
  (** the file at a path, once the dry run has ended *)
  file_at : string → file_content;
}.

(** The checker object: what it has emitted and its one attribute,
    unset until [_collection_deps] assigns it. *)
Record state := {
  trace : list event;
  _collections_missing : option bool;
}.

(** The state once the events [es] have been emitted. *)
Definition emitted (s : state) (es : list event) : state :=
  {| trace := (trace s ++ es)%list;
     _collections_missing := _collections_missing s |}.

Definition emit (e : event) : M state unit := λ s, (Return tt, emitted s [e]).

Definition log (lvl : level) (msg : string) : M state unit :=
  emit (Log lvl msg).

(** Modelled from the spec: [hint] and [note] of [utils], which is not
    among the sources.  The spec's words: a separate hint/note
    presentation channel for user-facing suggestions. *)
Definition hint (msg : string) : M state unit := emit (Hint msg).
Definition note (msg : string) : M state unit := emit (Note msg).

(** Modelled from the spec: [oxford_join] of [utils].  The spec's
    words: join with natural-language and/comma separators
    (A, B, and C). *)
Definition oxford_join (words : list string) : string :=
  match words with
  | [] => ""
  | [a] => a
  | [a; b] => a +:+ " and " +:+ b
  | _ =>
      String.concat ", " (removelast words) +:+ ", and " +:+ List.last words ""
  end.

(** Modelled from the spec: [subprocess_run] of [utils].  The spec's
    words: run external command(command, verbose) -> exit status,
    raises on non-zero. *)
Definition subprocess_run (env : Env) (command : string) (verbose : bool)
    : M state unit :=
  _ ← emit (Exec command);
  if decide (exit_status env command = 0%Z) then mret tt
  else raise (CalledProcessError command (exit_status env command)).

(** [with path.open() as file: json.load(file)] *)
Definition load_report (env : Env) (path : string) : M state pip_report :=
  _ ← emit (OpenFile path);
  match file_at env path with
  | Absent => raise (FileNotFoundError path)
  | NotJSON msg => raise (JSONDecodeError msg)
  | Document doc => mret doc
  end.

Definition set_collections_missing (b : bool) : M state unit := λ s,
  (Return tt, {| trace := trace s; _collections_missing := Some b |}).

Definition get_collections_missing : M state bool := λ s,
  match _collections_missing s with
  | Some b => (Return b, s)
  | None =>
      (Raise (AttributeError
         "'Checker' object has no attribute '_collections_missing'"), s)
  end.

(** *** [Checker._collection_deps] *)

Definition mismatch_msg (collection_name dep version dep_version : string) :=
  "Collection " +:+ collection_name +:+ " requires " +:+ dep +:+ " " +:+ version
  +:+ " but " +:+ dep +:+ " " +:+ dep_version +:+ " is installed.".

Definition satisfied_msg (collection_name dep version dep_version : string) :=
  "✓ Collection " +:+ collection_name +:+ " requires " +:+ dep +:+ " " +:+ version
  +:+ " and " +:+ dep +:+ " " +:+ dep_version +:+ " is installed.".

Definition not_installed_msg (collection_name dep version : string) :=
  "Collection " +:+ collection_name +:+ " requires"
  +:+ " " +:+ dep +:+ " " +:+ version +:+ " but it is not installed.".

Definition install_hint_msg (dep : string) :=
  "Try running `pip4a install " +:+ dep +:+ "`".

(** Body of the inner loop, lines 58-85; [missing] is the local flag. *)
Definition check_dep (collections : universe) (collection_name : string)
    (item : string * string) (missing : bool) : M state bool :=
  let '(dep, version) := item in
  spec ← lift (SpecifierSet version);
  match collections_get collections dep with
  | Some details =>
      let dep_version := installed_version details in
      dep_spec ← lift (Version dep_version);
      if negb (contains spec dep_spec) then
        _ ← log WARNING (mismatch_msg collection_name dep version dep_version);
        mret true
      else
        _ ← log DEBUG (satisfied_msg collection_name dep version dep_version);
        mret missing
  | None =>
      _ ← log WARNING (not_installed_msg collection_name dep version);
      _ ← hint (install_hint_msg dep);
      mret true
  end.

(** Body of the outer loop, lines 50-85. *)
Definition check_collection (collections : universe)
    (item : string * manifest) (missing : bool) : M state bool :=
  let '(collection_name, details) := item in
  _ ← log DEBUG ("Checking dependencies for " +:+ collection_name +:+ ".");
  let deps := dependencies details in
  match deps with
  | [] =>
      _ ← log DEBUG ("Collection " +:+ collection_name +:+ " has no dependencies.");
      mret missing
  | _ => foldM (check_dep collections collection_name) deps missing
  end.

Definition _collection_deps (cfg : Config) (env : Env) : M state unit :=
  let collections :=
    collect_manifests env (site_pkg_collections_path cfg) (venv_cache_dir cfg) in
  missing ← foldM (check_collection collections) collections false;
  _ ← (if negb missing then note "✓ All dependant collections are installed."
       else mret tt);
  set_collections_missing missing.

(** *** [Checker._python_deps] *)

Definition missing_file (cfg : Config) : string :=
  venv_cache_dir cfg +:+ "/" +:+ "pip-report.txt".

Definition dry_run_command (cfg : Config) : string :=
  venv_interpreter cfg +:+ " -m pip install -r"
  +:+ " " +:+ discovered_python_reqs cfg +:+ " --dry-run"
  +:+ " --report " +:+ missing_file cfg.

Definition is_CalledProcessError (e : exn) : bool :=
  match e with CalledProcessError _ _ => true | _ => false end.

Definition requirement (package : package_metadata) : string :=
  name package +:+ "==" +:+ pkg_version package.

(** Lines 111-127: what is emitted once the report is loaded. *)
Definition report_findings (report : pip_report) : M state unit :=
  match install report with
  | None | Some [] => note "✓ All Python dependencies are installed."
  | Some packages =>
      let missing := map requirement packages in
      _ ← log WARNING ("Missing Python dependencies: " +:+ oxford_join missing);
      _ ← hint ("Try running `pip install " +:+ String.concat " " missing +:+ "`.");
      flag ← get_collections_missing;
      if (flag : bool) then
        log WARNING "Python packages required by missing collections are not included."
      else mret tt
  end.

(** Lines 96-109 after the introspection: the dry run, then the load. *)
Definition dry_run_and_load (cfg : Config) (env : Env) : M state pip_report :=
  _ ← try_except
        (subprocess_run env (dry_run_command cfg) (verbose cfg))
        is_CalledProcessError
        (λ exc, log CRITICAL ("Failed to check python dependencies: " +:+ exn_str exc));
  load_report env (missing_file cfg).

Definition _python_deps (cfg : Config) (env : Env) : M state unit :=
  _ ← match builder_introspect env cfg with
      | Some e => raise e
      | None => mret tt
      end;
  pip_report ← dry_run_and_load cfg env;
  report_findings pip_report.

(** What the failed dry run leaves in the trace before the report is read. *)
Definition after_failed_dry_run (cfg : Config) (env : Env) (st : state) : state :=
  emitted st
    [Exec (dry_run_command cfg);
     Log CRITICAL ("Failed to check python dependencies: "
       +:+ exn_str (CalledProcessError (dry_run_command cfg)
                      (exit_status env (dry_run_command cfg))));
     OpenFile (missing_file cfg)].

Definition run (cfg : Config) (env : Env) : M state unit :=
  _ ← _collection_deps cfg env;
  _python_deps cfg env.

(** A freshly constructed checker. *)
Definition init : state := {| trace := []; _collections_missing := None |}.

(** *** Vocabulary for the properties below *)

(** An exception that the version library raised on some string. *)
Definition parser_exn (e : exn) : Prop :=
  (∃ s, SpecifierSet s = Raise e) ∨ (∃ s, Version s = Raise e).

(** The dependency [(dep, version)] cannot be checked: its constraint
    does not parse, or it does and the version of the installed [dep]
    does not. *)
Definition malformed (collections : universe) (dep version : string) : Prop :=
  (∃ e, SpecifierSet version = Raise e)
  ∨ (∃ details e, collections_get collections dep = Some details
                  ∧ Version (installed_version details) = Raise e).

(** Every constraint of the universe parses, and so does the version of
    every installed dependency. *)
Definition well_formed (collections : universe) : Prop :=
  ∀ collection_name details dep version,
    (collection_name, details) ∈ collections →
    (dep, version) ∈ dependencies details →
    ¬ malformed collections dep version.

(** A record the collection phase can emit while it loops. *)
Definition loop_event (ev : event) : Prop :=
  match ev with
  | Log (DEBUG | WARNING) _ | Hint _ => True
  | _ => False
  end.

(** The local flag is set and the record [warning] has been emitted. *)
Definition found (warning : event) (missing : bool) (st : state) : Prop :=
  missing = true ∧ warning ∈ trace st.

(** What a piece of the collection loop started in [st] can end with:
    it has emitted loop records and nothing else, and an exception, if
    any, is the version library's. *)
Definition loop_outcome {A} (st : state) (out : result A * state) : Prop :=
  (∃ es, out.2 = emitted st es ∧ Forall loop_event es)
  ∧ match out.1 with Raise e => parser_exn e | Return _ => True end.

End WithPackaging.
End Checker.

Module UnInstaller.

(** *** The collection tree on disk

    What lies at [<site-packages>/ansible_collections].  A directory
    maps the names of its entries to them.  A symbolic link is recorded
    with what it resolves to: a file, a directory (with the entries
    seen through the link) or nothing when it dangles.  Links are taken
    to lead out of the tree, each to a place of its own. *)
Inductive node :=
| File
| Dir (entries : gmap string node)
| LinkToFile
| LinkToDir (entries : gmap string node)
| LinkDangling.

(** A path below the collection root, one name per level; [[]] is the
    root itself. *)
Definition path := list string.

(** [p / segment] of [pathlib], for a segment without a separator (a
    [plain_name] below gives such segments): an empty segment adds
    nothing.  A segment with a separator would descend several levels or,
    when it starts with one, leave the collection root; neither is
    modelled. *)
Definition path_join (p : path) (segment : string) : path :=
  if decide (segment = "") then p else (p ++ [segment])%list.

(** What a node is once symbolic links are followed. *)
Definition deref (n : node) : option node :=
  match n with
  | LinkToFile => Some File
  | LinkToDir entries => Some (Dir entries)
  | LinkDangling => None
  | _ => Some n
  end.

(** [os.lstat]: links are followed on the way, not at the last name. *)
Fixpoint lstat_node (n : node) (p : path) {struct p} : option node :=
  match p with
  | [] => Some n
  | c :: p' =>
      match deref n with
      | Some (Dir entries) => child ← entries !! c; lstat_node child p'
      | _ => None
      end
  end.

Definition lstat (tree : option node) (p : path) : option node :=
  n ← tree; lstat_node n p.

(** [os.stat]: the last name is followed too. *)
Definition stat (tree : option node) (p : path) : option node :=
  n ← lstat tree p; deref n.

(** Why [os.lstat] fails where it finds nothing: the walk met something
    that is no directory before the last name ([ENOTDIR]), or a name was
    missing, as behind a dangling link ([ENOENT]). *)
Fixpoint not_a_directory_node (n : node) (p : path) {struct p} : bool :=
  match p with
  | [] => false
  | c :: p' =>
      match deref n with
      | Some (Dir entries) =>
          match entries !! c with
          | Some child => not_a_directory_node child p'
          | None => false
          end
      | Some _ => true
      | None => false
      end
  end.

Definition not_a_directory (tree : option node) (p : path) : bool :=
  match tree with
  | Some n => not_a_directory_node n p
  | None => false
  end.

Definition exists_ (tree : option node) (p : path) : bool :=
  match stat tree p with Some _ => true | None => false end.

Definition is_symlink (tree : option node) (p : path) : bool :=
  match lstat tree p with
  | Some (LinkToFile | LinkToDir _ | LinkDangling) => true
  | _ => false
  end.

Definition is_dir (tree : option node) (p : path) : bool :=
  match stat tree p with Some (Dir _) => true | _ => false end.

(** Change the entries of the directory [n] stands for. *)
Definition map_dir (f : gmap string node → gmap string node) (n : node) : node :=
  match n with
  | Dir entries => Dir (f entries)
  | LinkToDir entries => LinkToDir (f entries)
  | _ => n
  end.

(** Take the entry at [p] out of its directory. *)
Fixpoint remove_node (n : node) (p : path) {struct p} : node :=
  match p with
  | [] => n
  | [c] => map_dir (delete c) n
  | c :: p' => map_dir (alter (λ child, remove_node child p') c) n
  end.

Definition remove (tree : option node) (p : path) : option node :=
  match p with
  | [] => None
  | _ => (λ n, remove_node n p) <$> tree
  end.

(** [PurePath.suffix]: the last dot and what follows it, unless the dot
    is the first or the last character. *)
Definition suffix (name : string) : string :=
  match rfind "."%char name with
  | Some i =>
      if (0 <? i)%nat && (i <? String.length name - 1)%nat
      then String.substring i (String.length name - i) name
      else ""
  | None => ""
  end.

(** [namespace, name = collection_name.split(".")] *)
Definition split_name (collection_name : string) : result (string * string) :=
  match split_on "."%char collection_name with
  | [namespace; name] => Return (namespace, name)
  | [] | [_] => Raise (ValueError "not enough values to unpack (expected 2, got 1)")
  | _ => Raise (ValueError "too many values to unpack (expected 2)")
  end.

(** *** Data *)

Record App := {
  collection_specifier : string;
  collection_name : string;
  collection_dependencies : list (string * string);
  verbose : bool;
  (** [site.getsitepackages()[0]] *)
  site_packages : string;
  (** [sys.executable] *)
  executable : string;
}.

(** The two paths of [constants.Constants] this file reads. *)
Record Constants := {
  REQUIREMENTS_PY : string;
  TEST_REQUIREMENTS_PY : string;
}.

Record Env := {
  (** size of the file at a path, [None] when there is none *)
  file_size : string → option Z;
  (** a shell command: its exit status and what it leaves of the tree *)
  shell : string → option node → Z * option node;
}.

Record state := {
  tree : option node;
  trace : list event;
}.

(** The state once the events [es] have been emitted. *)
Definition emitted (s : state) (es : list event) : state :=
  {| tree := tree s; trace := (trace s ++ es)%list |}.

Definition emit (e : event) : M state unit := λ s, (Return tt, emitted s [e]).

Definition log (lvl : level) (msg : string) : M state unit :=
  emit (Log lvl msg).

Definition get_tree : M state (option node) := λ s, (Return (tree s), s).

Definition put_tree (t : option node) : M state unit := λ s,
  (Return tt, {| tree := t; trace := trace s |}).

(** [str(collection_root)] and [str(path)] *)
Definition collection_root_str (app : App) : string :=
  site_packages app +:+ "/" +:+ "ansible_collections".

Definition path_str (app : App) (p : path) : string :=
  foldl (λ acc c, acc +:+ "/" +:+ c) (collection_root_str app) p.

(** *** The file-system calls *)

(** The [OSError] of a call that finds nothing at [p]. *)
Definition nothing_at (app : App) (t : option node) (p : path) : exn :=
  if not_a_directory t p then NotADirectoryError (path_str app p)
  else FileNotFoundError (path_str app p).

Definition unlink (app : App) (p : path) : M state unit :=
  t ← get_tree;
  match lstat t p with
  | None => raise (nothing_at app t p)
  | Some (Dir _) =>
      raise (OSError ("[Errno 21] Is a directory: '" +:+ path_str app p +:+ "'"))
  | Some _ => put_tree (remove t p)
  end.

Definition rmtree (app : App) (p : path) : M state unit :=
  t ← get_tree;
  match lstat t p with
  | None => raise (nothing_at app t p)
  | Some (LinkToFile | LinkToDir _ | LinkDangling) =>
      raise (OSError "Cannot call rmtree on a symbolic link")
  | Some File => raise (NotADirectoryError (path_str app p))
  | Some (Dir _) => put_tree (remove t p)
  end.

Definition rmdir (app : App) (p : path) : M state unit :=
  t ← get_tree;
  match lstat t p with
  | None => raise (nothing_at app t p)
  | Some (Dir entries) =>
      match map_to_list entries with
      | [] => put_tree (remove t p)
      | _ =>
          raise (OSError ("[Errno 39] Directory not empty: '" +:+ path_str app p +:+ "'"))
      end
  | Some _ => raise (NotADirectoryError (path_str app p))
  end.

(** [Path.iterdir]: the names in the directory, in the order the map
    lists them ([os.listdir] promises no order). *)
Definition iterdir (app : App) (p : path) : M state (list string) :=
  t ← get_tree;
  match stat t p with
  | None => raise (nothing_at app t p)
  | Some (Dir entries) => mret (map_to_list entries).*1
  | Some _ => raise (NotADirectoryError (path_str app p))
  end.

(** *** [UnInstaller._remove_collections] *)

Definition collection_root : path := [].

(** The test of lines 85-91 on one entry of the collection root, given
    what [lstat] finds under its name. *)
Definition entry_matches (collection_name entry_name : string)
    (found : option node) : bool :=
  match found ≫= deref with Some (Dir _) => true | _ => false end
  && startswith entry_name collection_name
  && bool_decide (suffix entry_name = ".info").

(** Body of the [iterdir] loop, lines 85-94. *)
Definition remove_info (app : App) (collection_name : string)
    (entry_name : string) : M state unit :=
  let entry := (collection_root ++ [entry_name])%list in
  t ← get_tree;
  if is_dir t entry
     && startswith entry_name collection_name
     && bool_decide (suffix entry_name = ".info")
  then
    _ ← rmtree app entry;
    log INFO ("Removed " +:+ collection_name +:+ "*.info: " +:+ path_str app entry)
  else mret tt.

(** Lines 84-94: the scan for install metadata. *)
Definition remove_infos (app : App) (collection_name : string) : M state unit :=
  entries ← iterdir app collection_root;
  forM_ (remove_info app collection_name) entries.

(** Lines 67-79: the collection itself. *)
Definition remove_collection_path (app : App) (collection_name : string)
    (collection_path : path) : M state unit :=
  t ← get_tree;
  if exists_ t collection_path then
    _ ← log DEBUG ("Exists: " +:+ path_str app collection_path);
    t ← get_tree;
    _ ← (if is_symlink t collection_path then unlink app collection_path
         else rmtree app collection_path);
    log INFO ("Removed " +:+ collection_name +:+ ": " +:+ path_str app collection_path)
  else
    log DEBUG ("Failed to find " +:+ collection_name +:+ ": "
               +:+ path_str app collection_path).

(** Body of the first loop, lines 58-94; the list of namespace roots is
    the local variable it extends. *)
Definition remove_collection (app : App) (collection_name : string)
    (collection_namespace_roots : list path) : M state (list path) :=
  '(namespace, name) ← lift (split_name collection_name);
  let collection_namespace_root := path_join collection_root namespace in
  let collection_namespace_roots :=
    (collection_namespace_roots ++ [collection_namespace_root])%list in
  let collection_path := path_join collection_namespace_root name in
  _ ← log DEBUG ("Checking " +:+ collection_name +:+ " at "
                 +:+ path_str app collection_path);
  _ ← remove_collection_path app collection_name collection_path;
  t ← get_tree;
  if negb (exists_ t collection_namespace_root) then
    mret collection_namespace_roots
  else
    _ ← remove_infos app collection_name;
    mret collection_namespace_roots.

Definition is_FileNotFoundError (e : exn) : bool :=
  match e with FileNotFoundError _ => true | _ => false end.

(** Body of the second loop, lines 97-105: [except FileNotFoundError]
    comes first, [except OSError] takes the rest of the class. *)
Definition remove_namespace_root (app : App) (collection_namespace_root : path)
    : M state unit :=
  try_except
    (_ ← rmdir app collection_namespace_root;
     log INFO ("Removed collection namespace root: "
               +:+ path_str app collection_namespace_root))
    is_OSError
    (λ exc,
       if is_FileNotFoundError exc then mret tt
       else log WARNING ("Failed to remove collection namespace root: "
                         +:+ exn_str exc)).

(** Lines 107-117. *)
Definition remove_collection_root (app : App) : M state unit :=
  t ← get_tree;
  if negb (exists_ t collection_root) then mret tt
  else
    try_except
      (_ ← rmdir app collection_root;
       log INFO ("Removed collection root: " +:+ path_str app collection_root))
      is_OSError
      (λ exc,
         if is_FileNotFoundError exc then mret tt
         else log DEBUG ("Failed to remove collection root: " +:+ exn_str exc)).

Definition collection_names (app : App) : list string :=
  ((collection_dependencies app).*1 ++ [collection_name app])%list.

Definition _remove_collections (app : App) : M state unit :=
  collection_namespace_roots ←
    foldM (remove_collection app) (collection_names app) [];
  _ ← forM_ (remove_namespace_root app) collection_namespace_roots;
  remove_collection_root app.

(** *** [UnInstaller._pip_uninstall] *)

Definition uninstall_command (app : App) (requirements_file : string) : string :=
  executable app +:+ " -m pip uninstall -r " +:+ requirements_file +:+ " -y".

(** [subprocess.run(command, check=True, shell=True)] *)
Definition subprocess_run (env : Env) (command : string) : M state unit :=
  _ ← emit (Exec command);
  t ← get_tree;
  let '(returncode, t') := shell env command t in
  _ ← put_tree t';
  if decide (returncode = 0%Z) then mret tt
  else raise (CalledProcessError command returncode).

Definition _pip_uninstall (app : App) (env : Env) (requirements_file : string)
    : M state unit :=
  match file_size env requirements_file with
  | None =>
      log INFO ("Requirements file " +:+ requirements_file
                +:+ " does not exist, skipping")
  | Some size =>
      if decide (size = 0%Z) then
        log INFO ("Requirements file " +:+ requirements_file +:+ " is empty, skipping")
      else
        let command := uninstall_command app requirements_file in
        _ ← log INFO ("Uninstalling python requirements from " +:+ requirements_file);
        _ ← log DEBUG ("Running command: " +:+ command);
        try_except (subprocess_run env command)
          Checker.is_CalledProcessError
          (λ exc, raise (RuntimeError
             ("Failed to uninstall requirements from " +:+ requirements_file
              +:+ ": " +:+ exn_str exc)))
  end.

(** *** [UnInstaller.run] *)

Definition run (app : App) (C : Constants) (env : Env) : M state unit :=
  if negb (bool_decide (collection_specifier app = collection_name app)
           || bool_decide (collection_specifier app = "."))
  then
    log CRITICAL ("Only uninstallation the local collection "
                  +:+ collection_name app +:+ ")"
                  +:+ " is supported at this time.")
  else
    _ ← _pip_uninstall app env (REQUIREMENTS_PY C);
    _ ← _pip_uninstall app env (TEST_REQUIREMENTS_PY C);
    _remove_collections app.

(** *** Vocabulary for the properties below *)

Definition is_dir_node (n : node) : bool :=
  match n with Dir _ => true | _ => false end.

(** [t'] is [t] after some removals: whatever a path reaches in [t'] it
    reached in [t], as the same kind of thing. *)
Definition shrinks (t' t : option node) : Prop :=
  ∀ p n', stat t' p = Some n' →
    ∃ n, stat t p = Some n ∧ is_dir_node n' = is_dir_node n.

(** A computation that only ever removes from the tree. *)
Definition shrinking {A} (m : M state A) : Prop :=
  ∀ st r st', m st = (r, st') → shrinks (tree st') (tree st).

(** Nothing is left in [t] for the first loop to remove under the name
    [collection_name]: the name splits, the collection path is absent
    and, where the namespace directory exists, the collection root is a
    directory without install metadata of that name. *)
Definition clean (collection_name : string) (t : option node) : Prop :=
  match split_name collection_name with
  | Return (namespace, name) =>
      let collection_namespace_root := path_join collection_root namespace in
      exists_ t (path_join collection_namespace_root name) = false
      ∧ (exists_ t collection_namespace_root = true →
         is_dir t collection_root = true
         ∧ ∀ entry_name,
             entry_matches collection_name entry_name (lstat t [entry_name]) = false)
  | Raise _ => False
  end.

(** A collection name without a path separator: the names for which
    [path_join] stands for the [/] of [pathlib]. *)
Definition plain_name (collection_name : string) : Prop :=
  count_char "/" collection_name = 0.
End UnInstaller.

(** Concrete runs of the uninstaller. *)
Module UnExamples.
Import UnInstaller.

Definition app : App := {|
  collection_specifier := ".";
  collection_name := "ns.name";
  collection_dependencies := [("ansible.utils", "*")];
  verbose := false;
  site_packages := "/venv/lib/site-packages";
  executable := "/venv/bin/python";
|}.

(** The same project, asked to uninstall another collection. *)
Definition foreign_target : App := {|
  collection_specifier := "community.general";
  collection_name := "ns.name";
  collection_dependencies := [("ansible.utils", "*")];
  verbose := false;
  site_packages := "/venv/lib/site-packages";
  executable := "/venv/bin/python";
|}.

(** The same project with a dependency whose name has no dot. *)
Definition undotted_dependency : App := {|
  collection_specifier := ".";
  collection_name := "ns.name";
  collection_dependencies := [("ansible.utils", "*"); ("posix", "*")];
  verbose := false;
  site_packages := "/venv/lib/site-packages";
  executable := "/venv/bin/python";
|}.

Definition C : Constants := {|
  REQUIREMENTS_PY := "/venv/.pip4a-cache/requirements.txt";
  TEST_REQUIREMENTS_PY := "/venv/.pip4a-cache/test-requirements.txt";
|}.

(** Both requirements files hold something and pip succeeds, leaving
    the collection tree alone. *)
Definition env : Env := {|
  file_size := λ _, Some 10%Z;
  shell := λ _ t, (0%Z, t);
|}.

Definition directory (l : list (string * node)) : node := Dir (list_to_map l).

(** Two installed collections with their metadata next to the namespace
    directories, and one more metadata directory inside [ns]. *)
Definition installed : node :=
  directory
    [("ns", directory [("name", directory [("plugins", directory [])]);
                       ("ns.name-1.0.0.info", directory [])]);
     ("ansible", directory [("utils", directory [])]);
     ("ns.name-1.0.0.info", directory [("GALAXY.yml", File)]);
     ("ansible.utils-2.0.0.info", directory [])].

(** A regular file where the collection should be. *)
Definition file_in_the_way : node :=
  directory [("ns", directory [("name", File)])].

Definition start (t : option node) : state := {| tree := t; trace := [] |}.
End UnExamples.

(** ** A small version library

    One implementation of the [Packaging] interface, for running the
    checker on concrete manifests.  It reads the canonical spelling of a
    part of the library's versions: dotted release numbers, optionally
    followed by a pre-release tag ([a], [b] or [rc] and a number), white
    space around them allowed; a clause is one of six comparison
    operators followed by such a version.  What it does not read it
    rejects. *)
Module Dotted.

Definition digit (a : Ascii.ascii) : option nat :=
  let n := nat_of_ascii a in
  if (48 <=? n)%nat && (n <=? 57)%nat then Some (n - 48)%nat else None.

Fixpoint parse_digits (s : string) (acc : nat) : option nat :=
  match s with
  | "" => Some acc
  | String a s' => d ← digit a; parse_digits s' (10 * acc + d)%nat
  end.

Definition parse_number (s : string) : option nat :=
  match s with
  | "" => None
  | _ => parse_digits s 0
  end.

Definition parse_release (s : string) : option (list nat) :=
  mapM parse_number (split_on "."%char s).

(** The phases of a pre-release, in their order. *)
Inductive phase := Alpha | Beta | Candidate.

Record version := {
  release : list nat;
  pre : option (phase * nat);
}.

(** A final release. *)
Definition final (release : list nat) : version :=
  {| release := release; pre := None |}.

(** The release numbers at the head of a version string, and the rest. *)
Fixpoint split_release (s : string) : string * string :=
  match s with
  | "" => ("", "")
  | String a s' =>
      if bool_decide (is_Some (digit a)) || Ascii.eqb a "."%char then
        (String a (split_release s').1, (split_release s').2)
      else ("", s)
  end.

(** The tag after the release numbers; its number may be left out. *)
Definition parse_pre (tag : string) : option (option (phase * nat)) :=
  match tag with
  | "" => Some None
  | String "a" number => n ← parse_digits number 0; Some (Some (Alpha, n))
  | String "b" number => n ← parse_digits number 0; Some (Some (Beta, n))
  | String "r" (String "c" number) =>
      n ← parse_digits number 0; Some (Some (Candidate, n))
  | _ => None
  end.

Definition parse_version (s : string) : option version :=
  let '(numbers, tag) := split_release (strip s) in
  r ← parse_release numbers;
  p ← parse_pre tag;
  Some {| release := r; pre := p |}.

Definition Version (s : string) : result version :=
  match parse_version s with
  | Some v => Return v
  | None => Raise (InvalidVersion ("Invalid version: '" +:+ s +:+ "'"))
  end.

Definition is_prerelease (v : version) : bool :=
  match pre v with Some _ => true | None => false end.

(** Compare release numbers, the shorter one padded with zeros. *)
Fixpoint compare_release (v w : list nat) : comparison :=
  match v, w with
  | [], _ => if forallb (Nat.eqb 0) w then Eq else Lt
  | x :: v', [] =>
      match Nat.compare x 0 with Eq => compare_release v' [] | c => c end
  | x :: v', y :: w' =>
      match Nat.compare x y with Eq => compare_release v' w' | c => c end
  end.

Definition phase_rank (p : phase) : nat :=
  match p with Alpha => 0 | Beta => 1 | Candidate => 2 end.

(** A pre-release comes before the final release of the same numbers. *)
Definition compare_pre (p q : option (phase * nat)) : comparison :=
  match p, q with
  | None, None => Eq
  | None, Some _ => Gt
  | Some _, None => Lt
  | Some (k, n), Some (k', n') =>
      match Nat.compare (phase_rank k) (phase_rank k') with
      | Eq => Nat.compare n n'
      | c => c
      end
  end.

Definition compare_version (v w : version) : comparison :=
  match compare_release (release v) (release w) with
  | Eq => compare_pre (pre v) (pre w)
  | c => c
  end.

Inductive operator := GE | LE | EQ | NE | GT | LT.

Definition strip_operator (s : string) : option (operator * string) :=
  match s with
  | String ">" (String "=" r) => Some (GE, r)
  | String "<" (String "=" r) => Some (LE, r)
  | String "=" (String "=" r) => Some (EQ, r)
  | String "!" (String "=" r) => Some (NE, r)
  | String ">" r => Some (GT, r)
  | String "<" r => Some (LT, r)
  | _ => None
  end.

Definition Specifier (s : string) : result (operator * version) :=
  match strip_operator (strip s) with
  | Some (op, r) =>
      match parse_version r with
      | Some v => Return (op, v)
      | None => Raise (InvalidSpecifier ("Invalid specifier: '" +:+ s +:+ "'"))
      end
  | None => Raise (InvalidSpecifier ("Invalid specifier: '" +:+ s +:+ "'"))
  end.

(** An inclusive operator in front of a pre-release lets pre-releases in. *)
Definition clause_prereleases (c : operator * version) : bool :=
  match c.1 with
  | GE | LE | EQ => is_prerelease c.2
  | _ => false
  end.

(** [<V] does not hold for a pre-release of [V] itself, unless [V] is a
    pre-release too. *)
Definition clause_contains (c : operator * version) (v : version) : bool :=
  match c.1, compare_version v c.2 with
  | GE, (Eq | Gt) | LE, (Eq | Lt) | EQ, Eq | NE, (Lt | Gt) | GT, Gt => true
  | LT, Lt =>
      negb (negb (is_prerelease c.2) && is_prerelease v
            && bool_decide (compare_release (release v) (release c.2) = Eq))
  | _, _ => false
  end.

#[global] Instance packaging : Packaging :=
  Build_Packaging version (operator * version)
    Version Specifier is_prerelease clause_prereleases clause_contains.
End Dotted.

(** ** Concrete runs *)
Module Examples.
Import Checker.

(** The text a record shows to the user. *)
Definition event_text (e : event) : string :=
  match e with
  | Log _ m | Hint m | Note m | Exec m | OpenFile m => m
  end.

Definition hints (tr : list event) : list string :=
  omap (λ e, match e with Hint m => Some m | _ => None end) tr.

Definition warnings (tr : list event) : list string :=
  omap (λ e, match e with Log WARNING m => Some m | _ => None end) tr.

Definition cfg : Config := {|
  site_pkg_collections_path := "/venv/lib/site-packages/ansible_collections";
  venv_cache_dir := "/venv/.pip4a-cache";
  venv_interpreter := "/venv/bin/python";
  discovered_python_reqs := "/venv/.pip4a-cache/discovered_requirements.txt";
  verbose := false;
|}.

(** [a.b] wants [c.d >=2.0]; [c.d 1.5.0] is installed. *)
Definition mismatch_universe : universe :=
  [("a.b", {| version := "1.0.0"; dependencies := [("c.d", ">=2.0")] |});
   ("c.d", {| version := "1.5.0"; dependencies := [] |})].

(** [a.b] declares [c.d] with a constraint that is no clause. *)
Definition corrupt_universe : universe :=
  [("a.b", {| version := "1.0.0"; dependencies := [("c.d", "bogus")] |});
   ("c.d", {| version := "1.5.0"; dependencies := [] |})].



Definition report_xy : pip_report :=
  {| install := Some [ {| name := "x"; pkg_version := "1.0" |};
                       {| name := "y"; pkg_version := "2.0" |} ] |}.

(** Collaborators: the universe found, the exit status of the dry run
    and the report it leaves, if any. *)
Definition env_of (u : universe) (status : Z) (report : file_content) : Env := {|
  collect_manifests := λ _ _, u;
  builder_introspect := λ _, None;
  exit_status := λ _, status;
  file_at := λ p, if decide (p = missing_file cfg) then report else Absent;
|}.

(** A checker whose collection phase found nothing missing. *)
Definition checked : state := {| trace := []; _collections_missing := Some false |}.
End Examples.

(** ** More vocabulary for the checker *)
Module CheckerTerms.
Import Checker.

Definition is_warning (ev : event) : bool :=
  match ev with Log WARNING _ => true | _ => false end.

Definition is_debug (ev : event) : Prop :=
  match ev with Log DEBUG _ => True | _ => False end.

Definition all_installed_note : event :=
  Note "✓ All dependant collections are installed.".

Definition python_installed_note : event :=
  Note "✓ All Python dependencies are installed.".

Definition disclaimer : event :=
  Log WARNING "Python packages required by missing collections are not included.".

(** What [_python_deps] emits from the dry run up to the opening of the
    report. *)
Definition dry_run_events (cfg : Config) (env : Env) : list event :=
  Exec (dry_run_command cfg)
  :: (if decide (exit_status env (dry_run_command cfg) = 0%Z) then []
      else [Log CRITICAL ("Failed to check python dependencies: "
              +:+ exn_str (CalledProcessError (dry_run_command cfg)
                             (exit_status env (dry_run_command cfg))))])
  ++ [OpenFile (missing_file cfg)].

(** The warning and the hint for a report that lists [packages]. *)
Definition missing_python_events (packages : list package_metadata) : list event :=
  [Log WARNING ("Missing Python dependencies: "
                +:+ oxford_join (map requirement packages));
   Hint ("Try running `pip install "
         +:+ String.concat " " (map requirement packages) +:+ "`.")].

(** The trace has grown by records that all satisfy [P]. *)
Definition grown_by (P : event → Prop) (st st' : state) : Prop :=
  ∃ es, trace st' = trace st ++ es ∧ Forall P es.

(** A computation all of whose outcomes, returned or raised, are related
    to its start by [R]. *)
Definition every_outcome (R : state → state → Prop) {A} (m : M state A) : Prop :=
  ∀ st r st', m st = (r, st') → R st st'.

Section WithPackaging.
Context `{Packaging}.

(** The dependency is installed in a version inside its constraint. *)
Definition satisfied (collections : universe) (dep version : string) : Prop :=
  ∃ spec details v,
    SpecifierSet version = Return spec
    ∧ collections_get collections dep = Some details
    ∧ Version (installed_version details) = Return v
    ∧ contains spec v = true.

Definition all_satisfied (collections : universe) : Prop :=
  ∀ collection_name details dep version,
    (collection_name, details) ∈ collections →
    (dep, version) ∈ dependencies details →
    satisfied collections dep version.

(** A hint of the collection phase names a collection that is absent. *)
Definition hint_for_absent (collections : universe) (ev : event) : Prop :=
  match ev with
  | Hint m =>
      ∃ dep, m = install_hint_msg dep ∧ collections_get collections dep = None
  | _ => True
  end.

(** A piece of the collection loop that ran to its end: the records it
    emitted, and the flag it leaves, set exactly when a warning is among
    them or it was set before. *)
Definition loop_step (collections : universe)
    (missing : bool) (st : state) (missing' : bool) (st' : state) : Prop :=
  ∃ es,
    st' = emitted st es
    ∧ missing' = missing || existsb is_warning es
    ∧ Forall (hint_for_absent collections) es
    ∧ Forall loop_event es.

End WithPackaging.
End CheckerTerms.

(** More concrete runs. *)
Module MoreExamples.
Import Checker Examples.

(** [a.b] wants [c.d], which is not installed. *)
Definition missing_universe : universe :=
  [("a.b", {| version := "1.0.0"; dependencies := [("c.d", ">=1.0")] |})].

(** [a.b] wants [c.d >=1.0,<2.0]; [c.d 1.5.0] is installed. *)
Definition satisfied_universe : universe :=
  [("a.b", {| version := "1.0.0"; dependencies := [("c.d", ">=1.0,<2.0")] |});
   ("c.d", {| version := "1.5.0"; dependencies := [] |})].

(** [a.b] wants [c.d], which is not installed, and then [e.f] with a
    constraint that is no clause. *)
Definition missing_then_corrupt_universe : universe :=
  [("a.b", {| version := "1.0.0";
              dependencies := [("c.d", ">=1.0"); ("e.f", "bogus")] |})].

Definition empty_report : pip_report := {| install := Some [] |}.
End MoreExamples.

(** ** More vocabulary for the uninstaller *)
Module UnInstallerTerms.
Import UnInstaller.

Definition is_log (ev : event) : Prop :=
  match ev with Log _ _ => True | _ => False end.

(** The state has only gained log records. *)
Definition logged (st st' : state) : Prop :=
  ∃ es, trace st' = trace st ++ es ∧ Forall is_log es.


(** A computation all of whose outcomes are related to its start by [R]. *)
Definition preserves (R : state → state → Prop) {A} (m : M state A) : Prop :=
  ∀ st r st', m st = (r, st') → R st st'.



(** The state once [p] has been removed from the tree. *)
Definition removed (st : state) (p : path) : state :=
  {| tree := remove (tree st) p; trace := trace st |}.

Definition uninstall_failure (app : App) (requirements_file : string)
    (returncode : Z) : exn :=
  RuntimeError
    ("Failed to uninstall requirements from " +:+ requirements_file +:+ ": "
     +:+ exn_str (CalledProcessError (uninstall_command app requirements_file)
                    returncode)).
End UnInstallerTerms.

(** More concrete runs of the uninstaller. *)
Module MoreUnExamples.
Import UnInstaller UnExamples.

(** Both requirements files hold something and pip fails. *)
Definition failing_pip : Env := {|
  file_size := λ _, Some 10%Z;
  shell := λ _ t, (1%Z, t);
|}.

(** No requirements file exists. *)
Definition no_requirements : Env := {|
  file_size := λ _, None;
  shell := λ _ t, (1%Z, t);
|}.

(** A collection that is a link to a directory elsewhere, a dangling
    link, and a namespace that holds a collection not asked for. *)
Definition linked : node :=
  directory
    [("ns", directory [("name", LinkToDir (list_to_map [("plugins", directory [])]));
                       ("other", directory [("README.md", File)])]);
     ("ansible", directory [("utils", LinkDangling)]);
     ("ns.name_extras-2.0.0.info", directory [])].
End MoreUnExamples.

(** * Properties of the checker *)
Module CheckerSpec.
Import Checker Examples.

Lemma emitted_app (s : state) (es fs : list event) :
  emitted (emitted s es) fs = emitted s (es ++ fs).
Proof. unfold emitted; simpl. by rewrite <- (assoc_L (++)). Qed.

Lemma emitted_nil (s : state) : emitted s [] = s.
Proof. destruct s; unfold emitted; simpl. by rewrite app_nil_r. Qed.

Ltac run_monad :=
  unfold mbind, M_bind, mret, M_ret, lift, raise, try_except,
    log, hint, note, emit; simpl.

(** The dry run, by its exit status. *)
Lemma subprocess_run_ok env command v st :
  exit_status env command = 0%Z →
  subprocess_run env command v st = (Return tt, emitted st [Exec command]).
Proof.
  intros Hz. unfold subprocess_run. run_monad.
  destruct (decide (exit_status env command = 0%Z)); done.
Qed.

Lemma subprocess_run_fails env command v st :
  exit_status env command ≠ 0%Z →
  subprocess_run env command v st =
    (Raise (CalledProcessError command (exit_status env command)),
     emitted st [Exec command]).
Proof.
  intros Hz. unfold subprocess_run. run_monad.
  destruct (decide (exit_status env command = 0%Z)); done.
Qed.

Lemma load_report_eq env path st :
  load_report env path st =
    match file_at env path with
    | Absent => (Raise (FileNotFoundError path), emitted st [OpenFile path])
    | NotJSON msg => (Raise (JSONDecodeError msg), emitted st [OpenFile path])
    | Document doc => (Return doc, emitted st [OpenFile path])
    end.
Proof. unfold load_report. run_monad. by destruct (file_at env path). Qed.

Lemma python_deps_after_failure cfg env st :
  builder_introspect env cfg = None →
  exit_status env (dry_run_command cfg) ≠ 0%Z →
  _python_deps cfg env st =
    match file_at env (missing_file cfg) with
    | Absent =>
        (Raise (FileNotFoundError (missing_file cfg)), after_failed_dry_run cfg env st)
    | NotJSON msg => (Raise (JSONDecodeError msg), after_failed_dry_run cfg env st)
    | Document doc => report_findings doc (after_failed_dry_run cfg env st)
    end.
Proof.
  intros Hintro Hexit. unfold _python_deps, dry_run_and_load.
  rewrite Hintro. unfold mbind at 1 2 3, M_bind. cbn [mret M_ret].
  unfold try_except. rewrite subprocess_run_fails by done.
  cbn [is_CalledProcessError]. unfold log, emit.
  rewrite load_report_eq, !emitted_app. cbn [app].
  unfold after_failed_dry_run.
  by destruct (file_at env (missing_file cfg)).
Qed.

(** C3: when the dry run exits non-zero, [_python_deps] logs the failure
    at critical severity and goes on: the next thing it does is open the
    report file, and what it returns is what the report's content
    decides (the findings of a parsed report, or the error of the read). *)
Theorem dry_run_failure_logged_then_report_read cfg env st :
  builder_introspect env cfg = None →
  exit_status env (dry_run_command cfg) ≠ 0%Z →
  _python_deps cfg env st =
    match file_at env (missing_file cfg) with
    | Absent =>
        (Raise (FileNotFoundError (missing_file cfg)), after_failed_dry_run cfg env st)
    | NotJSON msg => (Raise (JSONDecodeError msg), after_failed_dry_run cfg env st)
    | Document doc => report_findings doc (after_failed_dry_run cfg env st)
    end.
Proof. apply python_deps_after_failure. Qed.

Lemma dry_run_failure_logged_then_report_read_witness :
  _python_deps cfg (env_of [] 1 (Document report_xy)) checked =
    report_findings report_xy
      (after_failed_dry_run cfg (env_of [] 1 (Document report_xy)) checked).
Proof.
  exact (dry_run_failure_logged_then_report_read cfg
           (env_of [] 1 (Document report_xy)) checked eq_refl
           ltac:(vm_compute; discriminate)).
Defined.

(** C10: the read of the report is outside the [try]: when no file is at
    the report's path, [_python_deps] ends with [FileNotFoundError],
    whether the dry run succeeded or failed before.  Nothing is emitted
    after the attempt to open the file. *)
Theorem missing_report_file_raises cfg env st :
  builder_introspect env cfg = None →
  file_at env (missing_file cfg) = Absent →
  _python_deps cfg env st =
    (Raise (FileNotFoundError (missing_file cfg)),
     emitted st
       (Exec (dry_run_command cfg) ::
        (if decide (exit_status env (dry_run_command cfg) = 0%Z) then []
         else [Log CRITICAL ("Failed to check python dependencies: "
                 +:+ exn_str (CalledProcessError (dry_run_command cfg)
                                (exit_status env (dry_run_command cfg))))])
        ++ [OpenFile (missing_file cfg)])).
Proof.
  intros Hintro Habsent.
  destruct (decide (exit_status env (dry_run_command cfg) = 0%Z)) as [Hz|Hnz].
  - unfold _python_deps, dry_run_and_load.
    rewrite Hintro. unfold mbind at 1 2 3, M_bind. cbn [mret M_ret].
    unfold try_except. rewrite subprocess_run_ok by done.
    by rewrite load_report_eq, Habsent, emitted_app.
  - rewrite python_deps_after_failure by done.
    by rewrite Habsent.
Qed.
Lemma missing_report_file_raises_witness :
  _python_deps cfg (env_of [] 0 Absent) checked =
    (Raise (FileNotFoundError "/venv/.pip4a-cache/pip-report.txt"),
     emitted checked
       [Exec (dry_run_command cfg); OpenFile "/venv/.pip4a-cache/pip-report.txt"]).
Proof.
  exact (missing_report_file_raises cfg (env_of [] 0 Absent) checked
           eq_refl eq_refl).
Defined.

(** *** The report of two missing packages *)

Lemma report_findings_xy st flag :
  _collections_missing st = Some flag →
  report_findings report_xy st =
    (Return tt,
     emitted st
       ([Log WARNING "Missing Python dependencies: x==1.0 and y==2.0";
         Hint "Try running `pip install x==1.0 y==2.0`."]
        ++ if flag then
             [Log WARNING
                "Python packages required by missing collections are not included."]
           else [])).
Proof.
  intros Hflag. unfold report_findings, report_xy. cbn [install map].
  unfold mbind, M_bind, log, hint, emit, get_collections_missing.
  cbn [emitted _collections_missing]. rewrite Hflag.
  destruct flag; cbn [mret M_ret]; unfold emitted; cbn [trace _collections_missing];
    rewrite <- ?(assoc_L (++)); by rewrite Hflag.
Qed.

(** C4, as the code has it: for the report whose install list is
    (x, 1.0), (y, 2.0) the checker emits the warning
    "Missing Python dependencies: x==1.0 and y==2.0" and then one hint,
    whose message is the sentence
    "Try running `pip install x==1.0 y==2.0`." around the command; one
    more warning follows when the collection phase had found missing
    collections. *)
Theorem two_missing_packages_warning_and_hint st flag :
  _collections_missing st = Some flag →
  report_findings report_xy st =
    (Return tt,
     emitted st
       ([Log WARNING "Missing Python dependencies: x==1.0 and y==2.0";
         Hint "Try running `pip install x==1.0 y==2.0`."]
        ++ if flag then
             [Log WARNING
                "Python packages required by missing collections are not included."]
           else [])).
Proof. apply report_findings_xy. Qed.

Lemma two_missing_packages_warning_and_hint_witness :
  report_findings report_xy checked =
    (Return tt,
     emitted checked
       [Log WARNING "Missing Python dependencies: x==1.0 and y==2.0";
        Hint "Try running `pip install x==1.0 y==2.0`."]).
Proof. exact (two_missing_packages_warning_and_hint checked false eq_refl). Defined.

(** C4 as stated fails: on that report the one hint emitted is not the
    bare command "pip install x==1.0 y==2.0". *)
Lemma hint_is_not_the_bare_command :
  ∃ st', _python_deps cfg (env_of [] 0 (Document report_xy)) checked = (Return tt, st')
    ∧ warnings (trace st') = ["Missing Python dependencies: x==1.0 and y==2.0"]
    ∧ hints (trace st') = ["Try running `pip install x==1.0 y==2.0`."]
    ∧ "pip install x==1.0 y==2.0" ∉ hints (trace st').
Proof.
  eexists. split; [vm_compute; reflexivity|].
  split; [reflexivity|]. split; [reflexivity|].
  cbn. rewrite list_elem_of_singleton. discriminate.
Qed.

(** *** Loops in the monad *)

Lemma foldM_app {S A B} (f : A → B → M S B) l1 l2 b s :
  foldM f (l1 ++ l2) b s =
    match foldM f l1 b s with
    | (Return b1, s1) => foldM f l2 b1 s1
    | (Raise e, s1) => (Raise e, s1)
    end.
Proof.
  revert b s. induction l1 as [|a l1 IH]; intros b s; [done|].
  cbn [app foldM]. unfold mbind, M_bind.
  destruct (f a b s) as [[b1|e] s1]; [apply IH|done].
Qed.

Lemma foldM_cons {S A B} (f : A → B → M S B) a l b s :
  foldM f (a :: l) b s =
    match f a b s with
    | (Return b1, s1) => foldM f l b1 s1
    | (Raise e, s1) => (Raise e, s1)
    end.
Proof. done. Qed.

Lemma foldM_invariant {S A B} (f : A → B → M S B) (I : B → S → Prop) l :
  (∀ a b s b' s', I b s → f a b s = (Return b', s') → I b' s') →
  ∀ b s b' s', I b s → foldM f l b s = (Return b', s') → I b' s'.
Proof.
  intros Hstep. induction l as [|a l IH]; intros b s b' s' HI.
  - cbn. intros [= <- <-]. done.
  - rewrite foldM_cons. destruct (f a b s) as [[b1|e] s1] eqn:Hf; [|done].
    apply IH. by eapply Hstep.
Qed.

Lemma foldM_returns {S A B} (f : A → B → M S B) l :
  (∀ a b s, a ∈ l → ∃ b' s', f a b s = (Return b', s')) →
  ∀ b s, ∃ b' s', foldM f l b s = (Return b', s').
Proof.
  induction l as [|a l IH]; intros Hstep b s; [by eexists _, _|].
  rewrite foldM_cons.
  destruct (Hstep a b s) as (b1 & s1 & ->); [left|].
  apply IH. intros a' b2 s2 Ha'. apply Hstep. by right.
Qed.

Lemma foldM_raises {S A B} (f : A → B → M S B) l1 x l2 :
  (∀ b s, ∃ e s', f x b s = (Raise e, s')) →
  ∀ b s, ∃ e s', foldM f (l1 ++ x :: l2) b s = (Raise e, s').
Proof.
  intros Hx b s. rewrite foldM_app.
  destruct (foldM f l1 b s) as [[b1|e] s1]; [|by eexists _, _].
  rewrite foldM_cons. destruct (Hx b1 s1) as (e & s' & ->). by eexists _, _.
Qed.

Section WithPackaging.
Context `{Packaging}.

Lemma check_dep_eq collections collection_name dep version missing st :
  check_dep collections collection_name (dep, version) missing st =
    match SpecifierSet version with
    | Raise e => (Raise e, st)
    | Return spec =>
        match collections_get collections dep with
        | Some details =>
            match Version (installed_version details) with
            | Raise e => (Raise e, st)
            | Return v =>
                if contains spec v then
                  (Return missing,
                   emitted st [Log DEBUG (satisfied_msg collection_name dep version
                                            (installed_version details))])
                else
                  (Return true,
                   emitted st [Log WARNING (mismatch_msg collection_name dep version
                                              (installed_version details))])
            end
        | None =>
            (Return true,
             emitted st [Log WARNING (not_installed_msg collection_name dep version);
                         Hint (install_hint_msg dep)])
        end
    end.
Proof.
  unfold check_dep. run_monad.
  destruct (SpecifierSet version) as [spec|e]; [|done].
  destruct (collections_get collections dep) as [details|]; simpl.
  - destruct (Version (installed_version details)) as [v|e]; [|done].
    by destruct (contains spec v).
  - by rewrite emitted_app.
Qed.

(** **** Outcomes of the loop *)

Lemma loop_outcome_emitted {A} (a : A) st es :
  Forall loop_event es → loop_outcome st (Return a, emitted st es).
Proof. intros Hes. split; [by exists es|done]. Qed.

Lemma loop_outcome_refl {A} (a : A) st : loop_outcome st (Return a, st).
Proof. rewrite <- (emitted_nil st) at 2. by apply loop_outcome_emitted. Qed.

Lemma loop_outcome_trans {A B} (a : A) st s1 (out : result B * state) :
  loop_outcome st (Return a, s1) → loop_outcome s1 out → loop_outcome st out.
Proof.
  intros [(es1 & Hs1 & Hes1) _] [(es2 & Hs2 & Hes2) Hout]. simpl in *.
  split; [|done]. exists (es1 ++ es2). split.
  - by rewrite Hs2, Hs1, emitted_app.
  - by apply Forall_app.
Qed.

Lemma loop_outcome_raise {A} e st :
  parser_exn e → loop_outcome (A:=A) st (Raise e, st).
Proof.
  intros He. split; [|done]. exists []. by rewrite emitted_nil.
Qed.

Lemma check_dep_outcome collections collection_name item missing st :
  loop_outcome st (check_dep collections collection_name item missing st).
Proof.
  destruct item as [dep version]. rewrite check_dep_eq.
  destruct (SpecifierSet version) as [spec|e] eqn:Hspec;
    [|apply loop_outcome_raise; left; eauto].
  destruct (collections_get collections dep) as [details|].
  - destruct (Version (installed_version details)) as [v|e] eqn:Hv;
      [|apply loop_outcome_raise; right; eauto].
    destruct (contains spec v); apply loop_outcome_emitted;
      by repeat constructor.
  - apply loop_outcome_emitted. by repeat constructor.
Qed.

Lemma foldM_outcome {A} (f : A → bool → M state bool) l :
  (∀ a b s, loop_outcome s (f a b s)) →
  ∀ b s, loop_outcome s (foldM f l b s).
Proof.
  intros Hf. induction l as [|a l IH]; intros b s.
  - apply loop_outcome_refl.
  - rewrite foldM_cons. specialize (Hf a b s).
    destruct (f a b s) as [[b1|e] s1]; [|done].
    eapply loop_outcome_trans; [exact Hf|apply IH].
Qed.

Lemma check_collection_eq collections collection_name details missing st :
  check_collection collections (collection_name, details) missing st =
    let st1 := emitted st
      [Log DEBUG ("Checking dependencies for " +:+ collection_name +:+ ".")] in
    match dependencies details with
    | [] =>
        (Return missing,
         emitted st1
           [Log DEBUG ("Collection " +:+ collection_name +:+ " has no dependencies.")])
    | deps => foldM (check_dep collections collection_name) deps missing st1
    end.
Proof. unfold check_collection. run_monad. by destruct (dependencies details). Qed.

Lemma check_collection_outcome collections item missing st :
  loop_outcome st (check_collection collections item missing st).
Proof.
  destruct item as [collection_name details]. rewrite check_collection_eq.
  cbn zeta. set (st1 := emitted st [_]).
  apply (loop_outcome_trans tt st st1);
    [apply loop_outcome_emitted; by repeat constructor|].
  destruct (dependencies details) as [|d deps].
  - apply loop_outcome_emitted. by repeat constructor.
  - apply foldM_outcome. intros. apply check_dep_outcome.
Qed.

Lemma check_collection_deps collections collection_name details missing st :
  dependencies details ≠ [] →
  check_collection collections (collection_name, details) missing st =
    foldM (check_dep collections collection_name) (dependencies details) missing
      (emitted st
         [Log DEBUG ("Checking dependencies for " +:+ collection_name +:+ ".")]).
Proof.
  intros Hdeps. rewrite check_collection_eq.
  by destruct (dependencies details).
Qed.

Lemma collection_deps_eq cfg env st :
  _collection_deps cfg env st =
    let collections :=
      collect_manifests env (site_pkg_collections_path cfg) (venv_cache_dir cfg) in
    match foldM (check_collection collections) collections false st with
    | (Raise e, s1) => (Raise e, s1)
    | (Return true, s1) =>
        (Return tt, {| trace := trace s1; _collections_missing := Some true |})
    | (Return false, s1) =>
        (Return tt,
         {| trace := trace s1 ++ [Note "✓ All dependant collections are installed."];
            _collections_missing := Some false |})
    end.
Proof.
  unfold _collection_deps. cbn zeta. unfold mbind at 1, M_bind.
  destruct (foldM _ _ false st) as [[[|]|e] s1]; done.
Qed.

(** **** The empty constraint *)




(** **** A version mismatch *)

Section Mismatch.
Variables (collections : universe) (collection_name dep version : string).
Variables (details dep_details : manifest).
Variables (spec : list clause_t) (v : version_t).
Hypothesis Hcollection : (collection_name, details) ∈ collections.
Hypothesis Hdep : (dep, version) ∈ dependencies details.
Hypothesis Hinstalled : collections_get collections dep = Some dep_details.
Hypothesis Hspec : SpecifierSet version = Return spec.
Hypothesis Hversion : Version (installed_version dep_details) = Return v.
Hypothesis Hmismatch : contains spec v = false.

Local Abbreviation warning :=
  (Log WARNING (mismatch_msg collection_name dep version
                  (installed_version dep_details))).
Local Abbreviation found := (Checker.found warning).

Lemma mismatch_step missing st :
  check_dep collections collection_name (dep, version) missing st =
    (Return true, emitted st [warning]).
Proof. by rewrite check_dep_eq, Hspec, Hinstalled, Hversion, Hmismatch. Qed.

Lemma found_emitted missing st es : found missing st → found missing (emitted st es).
Proof.
  unfold found. intros [-> Hw]. split; [done|]. cbn. apply elem_of_app. by left.
Qed.

Lemma check_dep_keeps_found name item missing st missing' st' :
  found missing st →
  check_dep collections name item missing st = (Return missing', st') →
  found missing' st'.
Proof.
  intros Hfound. destruct item as [d c]. rewrite check_dep_eq.
  destruct (SpecifierSet c) as [sp|]; [|done].
  destruct (collections_get collections d) as [dd|].
  - destruct (Version (installed_version dd)) as [vv|]; [|done].
    destruct (contains sp vv); intros [= <- <-]; apply found_emitted;
      [done|]. by destruct Hfound.
  - intros [= <- <-]. apply found_emitted. by destruct Hfound.
Qed.

Lemma check_collection_keeps_found item missing st missing' st' :
  found missing st →
  check_collection collections item missing st = (Return missing', st') →
  found missing' st'.
Proof.
  intros Hfound. destruct item as [name d]. rewrite check_collection_eq.
  cbn zeta. destruct (dependencies d) as [|d0 deps].
  - intros [= <- <-]. by do 2 apply found_emitted.
  - apply foldM_invariant; [|by apply found_emitted].
    intros ?????. apply check_dep_keeps_found.
Qed.

Lemma check_collection_finds missing st missing' st' :
  check_collection collections (collection_name, details) missing st
    = (Return missing', st') →
  found missing' st'.
Proof.
  rewrite check_collection_deps
    by (intros Hnil; rewrite Hnil in Hdep; by apply elem_of_nil in Hdep).
  destruct (list_elem_of_split _ _ Hdep) as (d1 & d2 & ->).
  rewrite foldM_app.
  destruct (foldM _ d1 _ _) as [[b1|e] s1]; [|done].
  rewrite foldM_cons, mismatch_step.
  apply foldM_invariant.
  - intros ?????. apply check_dep_keeps_found.
  - split; [done|]. cbn. apply elem_of_app. right. by left.
Qed.

Lemma loop_finds st missing' st' :
  foldM (check_collection collections) collections false st
    = (Return missing', st') →
  found missing' st'.
Proof.
  destruct (list_elem_of_split _ _ Hcollection) as (l1 & l2 & Hsplit).
  rewrite Hsplit at 2. rewrite foldM_app.
  destruct (foldM _ l1 _ _) as [[b1|e] s1]; [|done].
  rewrite foldM_cons.
  destruct (check_collection _ _ b1 s1) as [[b2|e] s2] eqn:Hstep; [|done].
  apply foldM_invariant.
  - intros ?????. apply check_collection_keeps_found.
  - by eapply check_collection_finds.
Qed.
End Mismatch.

Lemma well_formed_returns collections st :
  well_formed collections →
  ∃ missing st',
    foldM (check_collection collections) collections false st
      = (Return missing, st').
Proof.
  intros Hwf.
  assert (∀ l b s, l ⊆ collections →
            ∃ b' s', foldM (check_collection collections) l b s = (Return b', s'))
    as Hloop; [|by apply Hloop].
  intros l b s Hl. apply foldM_returns. intros [name d] b0 s0 Hin.
  rewrite check_collection_eq. cbn zeta.
  destruct (dependencies d) as [|d0 deps] eqn:Hdeps; [by eexists _, _|].
  apply foldM_returns. intros [dep version] b1 s1 Hdin.
  assert (¬ malformed collections dep version) as Hok.
  { eapply Hwf; [by apply Hl|]. by rewrite Hdeps. }
  rewrite check_dep_eq.
  destruct (SpecifierSet version) as [sp|e] eqn:Hsp;
    [|destruct Hok; left; eauto].
  destruct (collections_get collections dep) as [dd|] eqn:Hget;
    [|by eexists _, _].
  destruct (Version (installed_version dd)) as [vv|e] eqn:Hvv;
    [|destruct Hok; right; eauto].
  destruct (contains sp vv); by eexists _, _.
Qed.

(** C1, as the code has it: a dependency that is installed in a
    version outside its declared constraint makes the checker log one
    warning, "... requires X but Y is installed.", and no hint; the
    local missing-flag becomes true and the loop goes on.  Whenever
    [_collection_deps] reaches its end, the attribute
    [_collections_missing] is true and the warning is in the trace;
    and it does reach its end when every constraint and version of the
    universe parses. *)
Theorem version_mismatch_warns_and_marks_missing
    cfg env collection_name details dep version dep_details spec v :
  let collections :=
    collect_manifests env (site_pkg_collections_path cfg) (venv_cache_dir cfg) in
  let warning :=
    Log WARNING (mismatch_msg collection_name dep version
                   (installed_version dep_details)) in
  (collection_name, details) ∈ collections →
  (dep, version) ∈ dependencies details →
  collections_get collections dep = Some dep_details →
  SpecifierSet version = Return spec →
  Version (installed_version dep_details) = Return v →
  contains spec v = false →
  (∀ missing st,
     check_dep collections collection_name (dep, version) missing st
       = (Return true, emitted st [warning]))
  ∧ (∀ st st',
       _collection_deps cfg env st = (Return tt, st') →
       _collections_missing st' = Some true ∧ warning ∈ trace st')
  ∧ (well_formed collections →
     ∀ st, ∃ st', _collection_deps cfg env st = (Return tt, st')).
Proof.
  intros collections warning Hc Hd Hi Hs Hv Hm. split; [|split].
  - intros. by eapply mismatch_step.
  - intros st st'. rewrite collection_deps_eq. cbn zeta.
    fold collections.
    destruct (foldM _ _ false st) as [[b|e] s1] eqn:Hloop; [|done].
    destruct (loop_finds collections collection_name dep version details
                dep_details spec v Hc Hd Hi Hs Hv Hm _ _ _ Hloop) as [-> Hw].
    by intros [= <-].
  - intros Hwf st. rewrite collection_deps_eq. cbn zeta. fold collections.
    destruct (well_formed_returns collections st Hwf) as (b & s1 & ->).
    destruct b; by eexists.
Qed.

(** **** A manifest that does not parse *)

Lemma malformed_step collections collection_name dep version missing st :
  malformed collections dep version →
  ∃ e, check_dep collections collection_name (dep, version) missing st
         = (Raise e, st)
       ∧ parser_exn e.
Proof.
  intros Hbad. rewrite check_dep_eq.
  destruct (SpecifierSet version) as [sp|e] eqn:Hsp.
  - destruct Hbad as [[e He]|(dd & e & -> & Hv)]; [congruence|].
    rewrite Hv. exists e. split; [done|]. right. eauto.
  - exists e. split; [done|]. left. eauto.
Qed.

Lemma malformed_loop_raises collections collection_name details dep version st :
  (collection_name, details) ∈ collections →
  (dep, version) ∈ dependencies details →
  malformed collections dep version →
  ∃ e es,
    foldM (check_collection collections) collections false st
      = (Raise e, emitted st es)
    ∧ parser_exn e ∧ Forall loop_event es.
Proof.
  intros Hc Hd Hbad.
  assert (∀ l, (collection_name, details) ∈ l →
            ∃ e s', foldM (check_collection collections) l false st
                      = (Raise e, s')) as Hraises.
  { intros l Hl. destruct (list_elem_of_split _ _ Hl) as (l1 & l2 & ->).
    apply foldM_raises. intros b s.
    rewrite check_collection_deps
      by (intros Hnil; rewrite Hnil in Hd; by apply elem_of_nil in Hd).
    destruct (list_elem_of_split _ _ Hd) as (d1 & d2 & ->).
    apply foldM_raises. intros b' s0.
    destruct (malformed_step collections collection_name dep version b' s0 Hbad)
      as (e & -> & _).
    by eexists _, _. }
  destruct (Hraises collections Hc) as (e & s' & Hloop).
  pose proof (foldM_outcome (check_collection collections) collections
                (λ a b s, check_collection_outcome collections a b s) false st)
    as [(es & Hes & Hloop_events) Hexn].
  rewrite Hloop in Hes, Hexn. simpl in Hes, Hexn. subst s'.
  by exists e, es.
Qed.

(** C2, as the code has it: the checker has no handler around the two
    parsers.  A dependency whose constraint does not parse, or whose
    installed version does not, ends its own step with the version
    library's exception and emits nothing for it; the whole run then
    ends with an exception of the version library, having emitted loop
    records only: the Python phase is not started. *)
Theorem malformed_manifest_fails_run
    cfg env collection_name details dep version :
  let collections :=
    collect_manifests env (site_pkg_collections_path cfg) (venv_cache_dir cfg) in
  (collection_name, details) ∈ collections →
  (dep, version) ∈ dependencies details →
  malformed collections dep version →
  (∀ missing st,
     ∃ e, check_dep collections collection_name (dep, version) missing st
            = (Raise e, st)
          ∧ parser_exn e)
  ∧ (∀ st, ∃ e es,
       run cfg env st = (Raise e, emitted st es)
       ∧ parser_exn e ∧ Forall loop_event es).
Proof.
  intros collections Hc Hd Hbad. split.
  - intros. by apply malformed_step.
  - intros st.
    destruct (malformed_loop_raises collections collection_name details dep
                version st Hc Hd Hbad) as (e & es & Hloop & He & Hes).
    exists e, es. split; [|done].
    unfold run. unfold mbind at 1, M_bind.
    rewrite collection_deps_eq. cbn zeta. fold collections. by rewrite Hloop.
Qed.
End WithPackaging.

(** *** Concrete runs with the dotted-number library *)



Lemma mismatch_universe_facts :
  ("a.b", {| version := "1.0.0"; dependencies := [("c.d", ">=2.0")] |})
    ∈ mismatch_universe
  ∧ ("c.d", ">=2.0") ∈ [("c.d", ">=2.0")].
Proof. split; apply list_elem_of_here. Defined.

Lemma version_mismatch_warns_and_marks_missing_witness :
  ∃ st', _collection_deps cfg (env_of mismatch_universe 0 Absent) init = (Return tt, st')
    ∧ _collections_missing st' = Some true
    ∧ Log WARNING "Collection a.b requires c.d >=2.0 but c.d 1.5.0 is installed."
        ∈ trace st'.
Proof.
  pose proof (version_mismatch_warns_and_marks_missing (H:=Dotted.packaging)
    cfg (env_of mismatch_universe 0 Absent)
    "a.b" {| version := "1.0.0"; dependencies := [("c.d", ">=2.0")] |}
    "c.d" ">=2.0" {| version := "1.5.0"; dependencies := [] |}
    [(Dotted.GE, Dotted.final [2; 0]%nat)] (Dotted.final [1; 5; 0]%nat)
    (proj1 mismatch_universe_facts) (proj2 mismatch_universe_facts)
    eq_refl eq_refl eq_refl eq_refl) as (_ & Hrun & _).
  eexists. split; [vm_compute; reflexivity|].
  apply (Hrun init). vm_compute. reflexivity.
Defined.

(** C1 as stated fails: the run over a universe with one mismatch ends
    normally with the warning and the flag, and has emitted no hint. *)
Lemma mismatch_emits_no_hint :
  ∃ st', _collection_deps cfg (env_of mismatch_universe 0 Absent) init = (Return tt, st')
    ∧ _collections_missing st' = Some true
    ∧ warnings (trace st')
        = ["Collection a.b requires c.d >=2.0 but c.d 1.5.0 is installed."]
    ∧ hints (trace st') = [].
Proof. eexists. split; [vm_compute; reflexivity|]. done. Qed.

Lemma corrupt_universe_facts :
  ("a.b", {| version := "1.0.0"; dependencies := [("c.d", "bogus")] |})
    ∈ corrupt_universe
  ∧ ("c.d", "bogus") ∈ [("c.d", "bogus")]
  ∧ malformed corrupt_universe "c.d" "bogus".
Proof.
  split; [apply list_elem_of_here|]. split; [apply list_elem_of_here|].
  left. eexists. vm_compute. reflexivity.
Defined.

Lemma malformed_manifest_fails_run_witness :
  ∃ e es, run cfg (env_of corrupt_universe 0 Absent) init = (Raise e, emitted init es)
    ∧ parser_exn e ∧ Forall loop_event es.
Proof.
  exact (proj2 (malformed_manifest_fails_run (H:=Dotted.packaging)
           cfg (env_of corrupt_universe 0 Absent)
           "a.b" {| version := "1.0.0"; dependencies := [("c.d", "bogus")] |}
           "c.d" "bogus"
           (proj1 corrupt_universe_facts)
           (proj1 (proj2 corrupt_universe_facts))
           (proj2 (proj2 corrupt_universe_facts))) init).
Defined.

(** C2 as stated fails: the run over the corrupt universe ends with the
    parser's exception, and neither its text nor any record emitted
    names the dependency [c.d] whose constraint is malformed. *)
Lemma parse_error_does_not_name_the_pair :
  ∃ e st', run cfg (env_of corrupt_universe 0 Absent) init = (Raise e, st')
    ∧ e = InvalidSpecifier "Invalid specifier: 'bogus'"
    ∧ occurs_in "c.d" (exn_str e) = false
    ∧ Forall (λ ev, occurs_in "c.d" (event_text ev) = false) (trace st').
Proof.
  eexists _, _. split; [vm_compute; reflexivity|].
  split; [done|]. split; [done|]. by repeat constructor.
Qed.
End CheckerSpec.

(** * Properties of the uninstaller *)
Module UnInstallerSpec.
Import UnInstaller UnExamples.
Import CheckerSpec.

Lemma emitted_twice (s : state) (es fs : list event) :
  emitted (emitted s es) fs = emitted s (es ++ fs).
Proof. unfold emitted; simpl. by rewrite <- (assoc_L (++)). Qed.

Lemma emitted_nothing (s : state) : emitted s [] = s.
Proof. destruct s; unfold emitted; simpl. by rewrite app_nil_r. Qed.

(** ** The target of [run] *)

(** C7: a target that is neither the collection's own name nor "." makes
    [run] log one critical record and return: the state it leaves is the
    state it found plus that record, so no command was executed and the
    tree is as it was. *)
Theorem foreign_target_rejected_before_any_work app C env st :
  collection_specifier app ≠ collection_name app →
  collection_specifier app ≠ "." →
  run app C env st =
    (Return tt,
     emitted st
       [Log CRITICAL ("Only uninstallation the local collection "
                      +:+ collection_name app +:+ ")"
                      +:+ " is supported at this time.")]).
Proof.
  intros Hname Hdot. unfold run.
  rewrite !bool_decide_eq_false_2 by done. reflexivity.
Qed.

Lemma foreign_target_rejected_before_any_work_witness :
  run foreign_target UnExamples.C env (start (Some installed)) =
    (Return tt,
     {| tree := Some installed;
        trace := [Log CRITICAL
          "Only uninstallation the local collection ns.name) is supported at this time."]
     |}).
Proof.
  exact (foreign_target_rejected_before_any_work foreign_target UnExamples.C env
           (start (Some installed))
           ltac:(vm_compute; discriminate) ltac:(vm_compute; discriminate)).
Defined.

(** ** Splitting a collection name *)

Lemma split_on_length c s : length (split_on c s) = S (count_char c s).
Proof.
  induction s as [|a s IH]; [done|]. cbn [split_on count_char].
  destruct (Ascii.eqb a c); cbn [length]; [by rewrite IH|].
  destruct (split_on c s) as [|w ws]; [done|]. cbn [length] in *. lia.
Qed.

Lemma split_on_join c s : String.concat (String c "") (split_on c s) = s.
Proof.
  induction s as [|a s IH]; [done|]. cbn [split_on].
  pose proof (split_on_length c s) as Hlen.
  destruct (split_on c s) as [|w ws] eqn:Hsplit; [discriminate|].
  destruct (Ascii.eqb_spec a c) as [->|Hne].
  - cbn [String.concat] in *. by rewrite <- IH.
  - destruct ws as [|w' ws]; cbn [String.concat] in *; by rewrite <- IH.
Qed.

Lemma split_name_one_dot collection_name :
  count_char "." collection_name = 1 →
  ∃ namespace name,
    split_name collection_name = Return (namespace, name)
    ∧ collection_name = namespace +:+ "." +:+ name.
Proof.
  intros Hcount. unfold split_name.
  pose proof (split_on_length "." collection_name) as Hlen.
  pose proof (split_on_join "." collection_name) as Hjoin.
  rewrite Hcount in Hlen.
  destruct (split_on "." collection_name) as [|ns [|leaf [|? ?]]];
    try discriminate.
  exists ns, leaf. split; [done|]. cbn [String.concat] in Hjoin. by rewrite <- Hjoin.
Qed.

Lemma split_name_other collection_name :
  count_char "." collection_name ≠ 1 →
  ∃ msg, split_name collection_name = Raise (ValueError msg).
Proof.
  intros Hcount. unfold split_name.
  pose proof (split_on_length "." collection_name) as Hlen.
  destruct (split_on "." collection_name) as [|ns [|leaf [|? ?]]];
    try by eexists.
  cbn in Hlen. lia.
Qed.

Lemma split_name_returns collection_name namespace name :
  split_name collection_name = Return (namespace, name) →
  count_char "." collection_name = 1.
Proof.
  intros Hsplit. destruct (decide (count_char "." collection_name = 1)); [done|].
  destruct (split_name_other collection_name) as [msg Hmsg]; congruence.
Qed.

Lemma remove_collection_bad_name app collection_name roots st :
  count_char "." collection_name ≠ 1 →
  ∃ msg, remove_collection app collection_name roots st
           = (Raise (ValueError msg), st).
Proof.
  intros Hcount. destruct (split_name_other _ Hcount) as [msg Hmsg].
  exists msg. unfold remove_collection, mbind, M_bind, lift. by rewrite Hmsg.
Qed.

(** C9: a name with exactly one dot splits into its namespace and its
    leaf.  A name with none or with several makes its own step raise
    [ValueError] with the state untouched, and the whole operation then
    raises, in the state the names before it have left: nothing is
    removed for that name or any after it. *)
Theorem split_succeeds_exactly_on_one_dot :
  (∀ collection_name,
     count_char "." collection_name = 1 →
     ∃ namespace name,
       split_name collection_name = Return (namespace, name)
       ∧ collection_name = namespace +:+ "." +:+ name)
  ∧ (∀ app before bad after st,
       collection_names app = before ++ bad :: after →
       count_char "." bad ≠ 1 →
       (∀ roots st0, ∃ msg,
          remove_collection app bad roots st0 = (Raise (ValueError msg), st0))
       ∧ ∃ e st',
           _remove_collections app st = (Raise e, st')
           ∧ ∃ r, foldM (remove_collection app) before [] st = (r, st')
                  ∧ match r with
                    | Raise e' => e = e'
                    | Return _ => ∃ msg, e = ValueError msg
                    end).
Proof.
  split; [apply split_name_one_dot|].
  intros app before bad after st Hnames Hbad. split.
  - intros. by apply remove_collection_bad_name.
  - unfold _remove_collections. unfold mbind at 1, M_bind.
    rewrite Hnames, foldM_app.
    destruct (foldM _ before [] st) as [[roots|e] s1] eqn:Hbefore.
    + rewrite foldM_cons.
      destruct (remove_collection_bad_name app bad roots s1 Hbad) as [msg ->].
      exists (ValueError msg), s1. split; [done|].
      exists (Return roots). split; [done|]. by exists msg.
    + exists e, s1. split; [done|]. by exists (Raise e).
Qed.

Lemma split_succeeds_exactly_on_one_dot_witness :
  (∃ namespace name,
     split_name "ansible.utils" = Return (namespace, name)
     ∧ "ansible.utils" = namespace +:+ "." +:+ name)
  ∧ ∃ e st',
      _remove_collections undotted_dependency (start (Some installed))
        = (Raise e, st')
      ∧ ∃ r, foldM (remove_collection undotted_dependency) ["ansible.utils"] []
               (start (Some installed)) = (r, st')
             ∧ match r with
               | Raise e' => e = e'
               | Return _ => ∃ msg, e = ValueError msg
               end.
Proof.
  split.
  - exact (proj1 split_succeeds_exactly_on_one_dot "ansible.utils" eq_refl).
  - exact (proj2 (proj2 split_succeeds_exactly_on_one_dot undotted_dependency
             ["ansible.utils"] "posix" ["ns.name"] (start (Some installed))
             eq_refl ltac:(vm_compute; discriminate))).
Defined.

(** ** The tree under removals *)

Lemma deref_map_dir f n :
  deref (map_dir f n) =
    match deref n with
    | Some (Dir entries) => Some (Dir (f entries))
    | other => other
    end.
Proof. by destruct n. Qed.

Lemma remove_node_cons n c q :
  remove_node n (c :: q) =
    map_dir (match q with
             | [] => delete c
             | _ => alter (λ child, remove_node child q) c
             end) n.
Proof. by destruct q. Qed.

Lemma stat_Some n p : stat (Some n) p = lstat_node n p ≫= deref.
Proof. done. Qed.

Lemma stat_remove_node n q p n' :
  q ≠ [] →
  lstat_node (remove_node n q) p ≫= deref = Some n' →
  ∃ n0, lstat_node n p ≫= deref = Some n0 ∧ is_dir_node n' = is_dir_node n0.
Proof.
  revert n q n'. induction p as [|a p IH]; intros n q n' Hq;
    (destruct q as [|c q]; [done|]); rewrite remove_node_cons.
  - cbn [lstat_node mbind option_bind]. rewrite deref_map_dir.
    destruct (deref n) as [[]|]; intros [= <-]; by eexists.
  - cbn [lstat_node]. rewrite deref_map_dir.
    destruct (deref n) as [[|m| | |]|]; try done.
    destruct q as [|c' q'].
    + rewrite lookup_delete. case_decide; [done|]. intros Hstat. by eexists.
    + rewrite lookup_alter. case_decide; [|intros Hstat; by eexists].
      subst a. destruct (m !! c) as [child|]; [|done].
      cbn [fmap option_fmap option_map mbind option_bind]. by apply IH.
Qed.

Lemma lstat_remove_node n q : q ≠ [] → lstat_node (remove_node n q) q = None.
Proof.
  revert n. induction q as [|c q IH]; intros n Hq; [done|].
  rewrite remove_node_cons. cbn [lstat_node]. rewrite deref_map_dir.
  destruct (deref n) as [[|m| | |]|]; try done.
  destruct q as [|c' q'].
  - by rewrite lookup_delete_eq.
  - rewrite lookup_alter_eq. destruct (m !! c) as [child|]; [|done].
    cbn [fmap option_fmap option_map mbind option_bind]. by apply IH.
Qed.

Lemma lstat_remove t q : lstat (remove t q) q = None.
Proof.
  destruct q as [|c q]; [done|]. destruct t as [n|]; [|done].
  by apply lstat_remove_node.
Qed.

Lemma exists_remove t q : exists_ (remove t q) q = false.
Proof. unfold exists_, stat. by rewrite lstat_remove. Qed.

(** Removing one entry of the root leaves the others as they were. *)
Lemma lstat_remove_entry t c e :
  lstat (remove t [c]) [e] = if decide (e = c) then None else lstat t [e].
Proof.
  destruct t as [n|]; [|by case_decide]. cbn [remove fmap option_fmap option_map].
  rewrite remove_node_cons. cbn [lstat mbind option_bind lstat_node].
  rewrite deref_map_dir.
  destruct (deref n) as [[|m| | |]|]; try by case_decide.
  rewrite lookup_delete. by repeat case_decide; simplify_eq.
Qed.


Lemma lstat_parent n p c x :
  lstat_node n (p ++ [c]) = Some x →
  ∃ entries, lstat_node n p ≫= deref = Some (Dir entries).
Proof.
  revert n. induction p as [|a p IH]; intros n; simpl.
  - destruct (deref n) as [[|m| | |]|]; try done. by eexists.
  - destruct (deref n) as [[|m| | |]|]; try done.
    destruct (m !! a) as [child|]; [|done]. apply IH.
Qed.

Lemma exists_parent t p c : exists_ t (p ++ [c]) = true → is_dir t p = true.
Proof.
  unfold exists_, is_dir. destruct t as [n|]; [|done]. rewrite !stat_Some.
  destruct (lstat_node n (p ++ [c])) as [x|] eqn:Hx; [|done]. intros _.
  by destruct (lstat_parent n p c x Hx) as [m ->].
Qed.

Lemma is_dir_exists t p : is_dir t p = true → exists_ t p = true.
Proof. unfold is_dir, exists_. by destruct (stat t p). Qed.

(** *** The order [shrinks] *)

Lemma shrinks_refl t : shrinks t t.
Proof. intros p n' Hn'. by exists n'. Qed.

Lemma shrinks_trans t1 t2 t3 : shrinks t1 t2 → shrinks t2 t3 → shrinks t1 t3.
Proof.
  intros H12 H23 p n1 Hn1.
  destruct (H12 p n1 Hn1) as (n2 & Hn2 & Hk12).
  destruct (H23 p n2 Hn2) as (n3 & Hn3 & Hk23).
  exists n3. split; [done|congruence].
Qed.

Lemma shrinks_remove t q : shrinks (remove t q) t.
Proof.
  intros p n'. destruct q as [|c q]; [done|]. destruct t as [n|]; [|done].
  cbn [remove fmap option_fmap option_map]. rewrite !stat_Some.
  by apply stat_remove_node.
Qed.

Lemma shrinks_exists t' t p :
  shrinks t' t → exists_ t' p = true → exists_ t p = true.
Proof.
  intros Hsh. unfold exists_. destruct (stat t' p) as [n'|] eqn:Hn'; [|done].
  destruct (Hsh p n' Hn') as (n & -> & _). done.
Qed.

Lemma shrinks_not_exists t' t p :
  shrinks t' t → exists_ t p = false → exists_ t' p = false.
Proof.
  intros Hsh Hno. destruct (exists_ t' p) eqn:Hex; [|done].
  apply (shrinks_exists _ _ _ Hsh) in Hex. congruence.
Qed.

Lemma shrinks_is_dir t' t p :
  shrinks t' t → is_dir t' p = true → is_dir t p = true.
Proof.
  intros Hsh. unfold is_dir. destruct (stat t' p) as [n'|] eqn:Hn'; [|done].
  destruct (Hsh p n' Hn') as (n & -> & Hkind).
  destruct n', n; done.
Qed.

Lemma shrinks_stays_dir t' t p :
  shrinks t' t → is_dir t p = true → exists_ t' p = true → is_dir t' p = true.
Proof.
  intros Hsh. unfold is_dir, exists_.
  destruct (stat t' p) as [n'|] eqn:Hn'; [|done].
  destruct (Hsh p n' Hn') as (n & -> & Hkind).
  destruct n', n; done.
Qed.

(** ** Steps of the uninstaller *)

Local Opaque remove.

Lemma bind_Return_inv {S A B} (m : M S A) (f : A → M S B) s b s' :
  (m ≫= f) s = (Return b, s') →
  ∃ a s1, m s = (Return a, s1) ∧ f a s1 = (Return b, s').
Proof.
  unfold mbind, M_bind. destruct (m s) as [[a|e] s1]; [|done]. by exists a, s1.
Qed.

Lemma bind_Return {S A B} (m : M S A) (f : A → M S B) s a s1 :
  m s = (Return a, s1) → (m ≫= f) s = f a s1.
Proof. unfold mbind, M_bind. by intros ->. Qed.

Lemma rmtree_eq app p st :
  rmtree app p st =
    match lstat (tree st) p with
    | None => (Raise (nothing_at app (tree st) p), st)
    | Some (LinkToFile | LinkToDir _ | LinkDangling) =>
        (Raise (OSError "Cannot call rmtree on a symbolic link"), st)
    | Some File => (Raise (NotADirectoryError (path_str app p)), st)
    | Some (Dir _) =>
        (Return tt, {| tree := remove (tree st) p; trace := trace st |})
    end.
Proof.
  unfold rmtree, mbind, M_bind, get_tree, put_tree, raise.
  by destruct (lstat (tree st) p) as [[]|].
Qed.

Lemma unlink_eq app p st :
  unlink app p st =
    match lstat (tree st) p with
    | None => (Raise (nothing_at app (tree st) p), st)
    | Some (Dir _) =>
        (Raise (OSError ("[Errno 21] Is a directory: '" +:+ path_str app p +:+ "'")), st)
    | Some _ => (Return tt, {| tree := remove (tree st) p; trace := trace st |})
    end.
Proof.
  unfold unlink, mbind, M_bind, get_tree, put_tree, raise.
  by destruct (lstat (tree st) p) as [[]|].
Qed.

Lemma rmdir_eq app p st :
  rmdir app p st =
    match lstat (tree st) p with
    | None => (Raise (nothing_at app (tree st) p), st)
    | Some (Dir entries) =>
        match map_to_list entries with
        | [] => (Return tt, {| tree := remove (tree st) p; trace := trace st |})
        | _ =>
            (Raise (OSError ("[Errno 39] Directory not empty: '"
                             +:+ path_str app p +:+ "'")), st)
        end
    | Some _ => (Raise (NotADirectoryError (path_str app p)), st)
    end.
Proof.
  unfold rmdir, mbind, M_bind, get_tree, put_tree, raise.
  destruct (lstat (tree st) p) as [[|m| | |]|]; try done.
  by destruct (map_to_list m).
Qed.

Lemma iterdir_eq app p st :
  iterdir app p st =
    match stat (tree st) p with
    | None => (Raise (nothing_at app (tree st) p), st)
    | Some (Dir entries) => (Return (map_to_list entries).*1, st)
    | Some _ => (Raise (NotADirectoryError (path_str app p)), st)
    end.
Proof.
  unfold iterdir, mbind, M_bind, get_tree, raise.
  by destruct (stat (tree st) p) as [[]|].
Qed.

Lemma remove_info_eq app collection_name e st :
  remove_info app collection_name e st =
    if entry_matches collection_name e (lstat (tree st) [e]) then
      match lstat (tree st) [e] with
      | Some (Dir _) =>
          (Return tt,
           {| tree := remove (tree st) [e];
              trace := trace st
                ++ [Log INFO ("Removed " +:+ collection_name +:+ "*.info: "
                              +:+ path_str app [e])] |})
      | _ => (Raise (OSError "Cannot call rmtree on a symbolic link"), st)
      end
    else (Return tt, st).
Proof.
  unfold remove_info. cbn zeta. unfold mbind at 1, M_bind at 1, get_tree at 1.
  change (collection_root ++ [e]) with [e].
  change (is_dir (tree st) [e] && startswith e collection_name
          && bool_decide (suffix e = ".info"))
    with (entry_matches collection_name e (lstat (tree st) [e])).
  destruct (entry_matches _ _ _) eqn:Hmatch; [|done].
  unfold mbind, M_bind. rewrite rmtree_eq.
  unfold entry_matches in Hmatch.
  destruct (lstat (tree st) [e]) as [[]|]; done.
Qed.

Lemma lstat_entry t entries e :
  stat t [] = Some (Dir entries) → lstat t [e] = entries !! e.
Proof.
  destruct t as [n|]; [|done]. rewrite stat_Some.
  cbn [lstat lstat_node mbind option_bind]. intros ->.
  by destruct (entries !! e).
Qed.

(** *** The scan for install metadata *)

Lemma scan_loop app collection_name ks st st' :
  forM_ (remove_info app collection_name) ks st = (Return tt, st') →
  ∀ e, lstat (tree st') [e] =
         if decide (e ∈ ks
                    ∧ entry_matches collection_name e (lstat (tree st) [e]) = true)
         then None else lstat (tree st) [e].
Proof.
  revert st. induction ks as [|k ks IH]; intros st.
  - intros [= <-] e. case_decide as Hin; [|done].
    destruct Hin as [Hin _]. by apply elem_of_nil in Hin.
  - cbn [forM_]. intros Hrun.
    apply bind_Return_inv in Hrun as ([] & s1 & Hstep & Hrest).
    intros e. rewrite (IH _ Hrest e).
    assert (lstat (tree s1) [e] =
              if decide (e = k ∧ entry_matches collection_name e
                                   (lstat (tree st) [e]) = true)
              then None else lstat (tree st) [e]) as Hs1.
    { rewrite remove_info_eq in Hstep.
      destruct (entry_matches collection_name k (lstat (tree st) [k])) eqn:Hk.
      - destruct (lstat (tree st) [k]) as [[]|] eqn:Hlk; try done.
        injection Hstep as <-. cbn [tree]. rewrite lstat_remove_entry.
        destruct (decide (e = k)) as [->|Hne].
        + rewrite decide_True; [done|]. split; [done|]. by rewrite Hlk.
        + rewrite decide_False; [done|]. by intros [? _].
      - injection Hstep as <-. rewrite decide_False; [done|].
        intros [-> Hc]. congruence. }
    rewrite Hs1.
    destruct (decide (e = k ∧ entry_matches collection_name e
                                (lstat (tree st) [e]) = true)) as [[-> Hm]|Hno].
    + transitivity (@None node); [by case_decide|].
      by rewrite decide_True by (split; [left|done]).
    + destruct (decide (e ∈ ks ∧ entry_matches collection_name e
                                   (lstat (tree st) [e]) = true)) as [[Hin Hm]|Hout].
      * rewrite decide_True; [done|]. split; [by right|done].
      * rewrite decide_False; [done|]. intros [Hin Hm].
        apply elem_of_cons in Hin as [->|Hin]; [by apply Hno|by apply Hout].
Qed.


Lemma remove_infos_returns app collection_name st st' :
  remove_infos app collection_name st = (Return tt, st') →
  is_dir (tree st) [] = true
  ∧ ∀ e, lstat (tree st') [e] =
           if entry_matches collection_name e (lstat (tree st) [e])
           then None else lstat (tree st) [e].
Proof.
  unfold remove_infos. intros Hrun.
  apply bind_Return_inv in Hrun as (ks & s1 & Hiter & Hloop).
  rewrite iterdir_eq in Hiter. unfold collection_root in Hiter.
  destruct (stat (tree st) []) as [[|m| | |]|] eqn:Hroot; try done.
  injection Hiter as <- <-. split; [unfold is_dir; by rewrite Hroot|].
  intros e. rewrite (scan_loop _ _ _ _ _ Hloop e).
  destruct (entry_matches collection_name e (lstat (tree st) [e])) eqn:Hm.
  - rewrite decide_True; [done|]. split; [|done].
    rewrite (lstat_entry _ _ e Hroot) in Hm.
    destruct (m !! e) as [n|] eqn:Hn; [|done].
    apply list_elem_of_fmap. exists (e, n). split; [done|].
    by apply elem_of_map_to_list.
  - rewrite decide_False; [done|]. by intros [_ ?].
Qed.


(** *** One name of the first loop *)

Lemma remove_collection_path_absent app collection_name p st :
  exists_ (tree st) p = false →
  remove_collection_path app collection_name p st =
    (Return tt,
     emitted st [Log DEBUG ("Failed to find " +:+ collection_name +:+ ": "
                            +:+ path_str app p)]).
Proof.
  intros Hno. unfold remove_collection_path.
  unfold mbind at 1, M_bind at 1, get_tree at 1. by rewrite Hno.
Qed.

Lemma remove_collection_path_returns app collection_name p st st' :
  remove_collection_path app collection_name p st = (Return tt, st') →
  exists_ (tree st') p = false ∧ shrinks (tree st') (tree st).
Proof.
  destruct (exists_ (tree st) p) eqn:Hex.
  - unfold remove_collection_path.
    unfold mbind at 1, M_bind at 1, get_tree at 1. rewrite Hex. intros Hrun.
    apply bind_Return_inv in Hrun as ([] & s1 & [= <-] & Hrun).
    apply bind_Return_inv in Hrun as (t & s2 & [= <- <-] & Hrun).
    apply bind_Return_inv in Hrun as ([] & s3 & Hrm & [= <-]).
    assert (tree s3 = remove (tree st) p) as Htree.
    { cbn [emitted tree] in Hrm.
      destruct (is_symlink (tree st) p).
      - rewrite unlink_eq in Hrm. cbn [emitted tree] in Hrm.
        destruct (lstat (tree st) p) as [[]|]; by simplify_eq.
      - rewrite rmtree_eq in Hrm. cbn [emitted tree] in Hrm.
        destruct (lstat (tree st) p) as [[]|]; by simplify_eq. }
    cbn [emitted tree]. rewrite Htree.
    split; [apply exists_remove|apply shrinks_remove].
  - rewrite remove_collection_path_absent by done. intros [= <-].
    split; [done|apply shrinks_refl].
Qed.

Lemma remove_collection_eq app collection_name namespace name roots st :
  split_name collection_name = Return (namespace, name) →
  remove_collection app collection_name roots st =
    let collection_namespace_root := path_join collection_root namespace in
    let collection_path := path_join collection_namespace_root name in
    match remove_collection_path app collection_name collection_path
            (emitted st [Log DEBUG ("Checking " +:+ collection_name +:+ " at "
                                    +:+ path_str app collection_path)]) with
    | (Raise e, s1) => (Raise e, s1)
    | (Return _, s1) =>
        if exists_ (tree s1) collection_namespace_root then
          match remove_infos app collection_name s1 with
          | (Raise e, s2) => (Raise e, s2)
          | (Return _, s2) => (Return (roots ++ [collection_namespace_root]), s2)
          end
        else (Return (roots ++ [collection_namespace_root]), s1)
    end.
Proof.
  intros Hsplit. unfold remove_collection.
  unfold mbind at 1, M_bind at 1, lift at 1. rewrite Hsplit. cbn zeta.
  unfold mbind at 1, M_bind at 1, log at 1, emit at 1.
  unfold mbind at 1, M_bind at 1.
  destruct (remove_collection_path _ _ _ _) as [[[]|e] s1]; [|done].
  unfold mbind at 1, M_bind at 1, get_tree at 1.
  destruct (exists_ (tree s1) _); [|done]. cbn [negb].
  unfold mbind, M_bind. by destruct (remove_infos _ _ _) as [[[]|e] s2].
Qed.

Lemma path_join_absent t p segment :
  exists_ t p = false → exists_ t (path_join p segment) = false.
Proof.
  intros Hno. unfold path_join. case_decide; [done|].
  destruct (exists_ t (p ++ [segment])) eqn:Hex; [|done].
  apply exists_parent, is_dir_exists in Hex. congruence.
Qed.





(** ** Computations that only remove *)

Lemma shrinking_ret {A} (a : A) : shrinking (mret a).
Proof. intros st r st' [= <- <-]. apply shrinks_refl. Qed.

Lemma shrinking_raise {A} e : shrinking (raise (A:=A) e).
Proof. intros st r st' [= <- <-]. apply shrinks_refl. Qed.

Lemma shrinking_lift {A} (x : result A) : shrinking (lift x).
Proof. intros st r st' [= <- <-]. apply shrinks_refl. Qed.

Lemma shrinking_log lvl msg : shrinking (log lvl msg).
Proof. intros st r st' [= <- <-]. apply shrinks_refl. Qed.

Lemma shrinking_bind {A B} (m : M state A) (f : A → M state B) :
  shrinking m → (∀ a, shrinking (f a)) → shrinking (m ≫= f).
Proof.
  intros Hm Hf st r st'. unfold mbind, M_bind.
  destruct (m st) as [[a|e] s1] eqn:Hrun.
  - intros Hrest. eapply shrinks_trans; [by eapply Hf|by eapply Hm].
  - intros [= <- <-]. by eapply Hm.
Qed.

Lemma shrinking_try_except {A} (body : M state A) handled handler :
  shrinking body → (∀ e, shrinking (handler e)) →
  shrinking (try_except body handled handler).
Proof.
  intros Hbody Hhandler st r st'. unfold try_except.
  destruct (body st) as [[a|e] s1] eqn:Hrun.
  - intros [= <- <-]. by eapply Hbody.
  - destruct (handled e).
    + intros Hrest. eapply shrinks_trans; [by eapply Hhandler|by eapply Hbody].
    + intros [= <- <-]. by eapply Hbody.
Qed.

Lemma shrinking_forM_ {A} (f : A → M state unit) l :
  (∀ a, shrinking (f a)) → shrinking (forM_ f l).
Proof.
  intros Hf. induction l as [|a l IH]; cbn [forM_].
  - apply shrinking_ret.
  - apply shrinking_bind; [apply Hf|by intros _].
Qed.

Lemma shrinking_foldM {A B} (f : A → B → M state B) l b :
  (∀ a b, shrinking (f a b)) → shrinking (foldM f l b).
Proof.
  intros Hf. revert b. induction l as [|a l IH]; intros b; cbn [foldM].
  - apply shrinking_ret.
  - apply shrinking_bind; [apply Hf|apply IH].
Qed.

Lemma shrinking_rmtree app p : shrinking (rmtree app p).
Proof.
  intros st r st'. rewrite rmtree_eq.
  destruct (lstat (tree st) p) as [[]|]; intros [= <- <-];
    first [apply shrinks_refl|apply shrinks_remove].
Qed.

Lemma shrinking_unlink app p : shrinking (unlink app p).
Proof.
  intros st r st'. rewrite unlink_eq.
  destruct (lstat (tree st) p) as [[]|]; intros [= <- <-];
    first [apply shrinks_refl|apply shrinks_remove].
Qed.

Lemma shrinking_rmdir app p : shrinking (rmdir app p).
Proof.
  intros st r st'. rewrite rmdir_eq.
  destruct (lstat (tree st) p) as [[|m| | |]|]; try destruct (map_to_list m);
    intros [= <- <-]; first [apply shrinks_refl|apply shrinks_remove].
Qed.

Lemma shrinking_iterdir app p : shrinking (iterdir app p).
Proof.
  intros st r st'. rewrite iterdir_eq.
  destruct (stat (tree st) p) as [[]|]; intros [= <- <-]; apply shrinks_refl.
Qed.

Lemma shrinking_get_bind {A} (f : option node → M state A) :
  (∀ t, shrinking (f t)) → shrinking (get_tree ≫= f).
Proof.
  intros Hf. apply shrinking_bind; [|done].
  intros st r st' [= <- <-]. apply shrinks_refl.
Qed.

Lemma shrinking_remove_info app collection_name e :
  shrinking (remove_info app collection_name e).
Proof.
  intros st r st'. rewrite remove_info_eq.
  destruct (entry_matches _ _ _); [|intros [= <- <-]; apply shrinks_refl].
  destruct (lstat (tree st) [e]) as [[]|]; intros [= <- <-];
    first [apply shrinks_refl|apply shrinks_remove].
Qed.

Lemma shrinking_remove_infos app collection_name :
  shrinking (remove_infos app collection_name).
Proof.
  apply shrinking_bind; [apply shrinking_iterdir|].
  intros ks. apply shrinking_forM_. intros e. apply shrinking_remove_info.
Qed.

Lemma shrinking_remove_collection_path app collection_name p :
  shrinking (remove_collection_path app collection_name p).
Proof.
  apply shrinking_get_bind. intros t.
  destruct (exists_ t p); [|apply shrinking_log].
  apply shrinking_bind; [apply shrinking_log|intros _].
  apply shrinking_get_bind. intros t'.
  apply shrinking_bind; [|intros _; apply shrinking_log].
  destruct (is_symlink t' p); [apply shrinking_unlink|apply shrinking_rmtree].
Qed.

Lemma shrinking_remove_collection app collection_name roots :
  shrinking (remove_collection app collection_name roots).
Proof.
  apply shrinking_bind; [apply shrinking_lift|]. intros [namespace name].
  apply shrinking_bind; [apply shrinking_log|intros _].
  apply shrinking_bind; [apply shrinking_remove_collection_path|intros _].
  apply shrinking_get_bind. intros t.
  destruct (negb _); [apply shrinking_ret|].
  apply shrinking_bind; [apply shrinking_remove_infos|intros _].
  apply shrinking_ret.
Qed.

Lemma shrinking_remove_namespace_root app p :
  shrinking (remove_namespace_root app p).
Proof.
  apply shrinking_try_except.
  - apply shrinking_bind; [apply shrinking_rmdir|intros _; apply shrinking_log].
  - intros e. destruct (is_FileNotFoundError e);
      [apply shrinking_ret|apply shrinking_log].
Qed.

Lemma shrinking_remove_collection_root app :
  shrinking (remove_collection_root app).
Proof.
  apply shrinking_get_bind. intros t.
  destruct (negb _); [apply shrinking_ret|].
  apply shrinking_try_except.
  - apply shrinking_bind; [apply shrinking_rmdir|intros _; apply shrinking_log].
  - intros e. destruct (is_FileNotFoundError e);
      [apply shrinking_ret|apply shrinking_log].
Qed.

(** ** Nothing left to remove *)

Lemma entry_matches_is_dir collection_name e t :
  entry_matches collection_name e (lstat t [e]) = true → is_dir t [e] = true.
Proof.
  unfold entry_matches. intros Hm.
  apply andb_prop in Hm as [Hm _]. by apply andb_prop in Hm as [Hm _].
Qed.

Lemma entry_matches_shrinks collection_name e t' t :
  shrinks t' t →
  entry_matches collection_name e (lstat t [e]) = false →
  entry_matches collection_name e (lstat t' [e]) = false.
Proof.
  intros Hsh Hno.
  destruct (entry_matches collection_name e (lstat t' [e])) eqn:Hm; [|done].
  pose proof (shrinks_is_dir _ _ _ Hsh (entry_matches_is_dir _ _ _ Hm)) as Hdir.
  revert Hno Hm. unfold entry_matches.
  change (match lstat t [e] ≫= deref with Some (Dir _) => true | _ => false end)
    with (is_dir t [e]).
  rewrite Hdir.
  destruct (startswith e collection_name), (bool_decide (suffix e = ".info"));
    by rewrite ?andb_false_r.
Qed.

Lemma path_join_exists t p segment :
  exists_ t (path_join p segment) = true → exists_ t p = true.
Proof.
  intros Hex. destruct (exists_ t p) eqn:Hp; [done|].
  by rewrite (path_join_absent _ _ segment Hp) in Hex.
Qed.

Lemma clean_shrinks collection_name t' t :
  shrinks t' t → clean collection_name t → clean collection_name t'.
Proof.
  intros Hsh. unfold clean.
  destruct (split_name collection_name) as [[namespace name]|]; [|done].
  cbn zeta. intros [Hpath Hmeta]. split.
  - by eapply shrinks_not_exists.
  - intros Hns'.
    destruct (Hmeta (shrinks_exists _ _ _ Hsh Hns')) as [Hroot Hnone]. split.
    + apply (shrinks_stays_dir _ _ _ Hsh Hroot).
      by apply (path_join_exists _ _ namespace).
    + intros e. by eapply entry_matches_shrinks.
Qed.

Lemma remove_collection_cleans app collection_name roots st roots' st' :
  remove_collection app collection_name roots st = (Return roots', st') →
  clean collection_name (tree st').
Proof.
  destruct (split_name collection_name) as [[namespace name]|e] eqn:Hsplit.
  - rewrite (remove_collection_eq _ _ _ _ _ _ Hsplit). cbn zeta.
    destruct (remove_collection_path _ _ _ _) as [[[]|e] s1] eqn:Hpath; [|done].
    apply remove_collection_path_returns in Hpath as [Hgone _].
    unfold clean. rewrite Hsplit. cbn zeta.
    destruct (exists_ (tree s1) (path_join collection_root namespace)) eqn:Hns.
    + destruct (remove_infos app collection_name s1) as [[[]|e] s2] eqn:Hscan;
        [|done].
      intros [= <- <-].
      pose proof (shrinking_remove_infos _ _ _ _ _ Hscan) as Hsh.
      apply remove_infos_returns in Hscan as [Hroot Hscan]. split.
      * by eapply shrinks_not_exists.
      * intros Hns'. split.
        -- apply (shrinks_stays_dir _ _ _ Hsh Hroot).
           by apply (path_join_exists _ _ namespace).
        -- intros e. rewrite Hscan.
           by destruct (entry_matches collection_name e (lstat (tree s1) [e]))
             eqn:Hm.
    + intros [= <- <-]. split; [done|]. intros Hns'. congruence.
  - unfold remove_collection, mbind, M_bind, lift. by rewrite Hsplit.
Qed.

Lemma loop_cleans app names :
  ∀ seen roots st roots' st',
    Forall (λ n, clean n (tree st)) seen →
    foldM (remove_collection app) names roots st = (Return roots', st') →
    Forall (λ n, clean n (tree st')) (seen ++ names).
Proof.
  induction names as [|n names IH]; intros seen roots st roots' st' Hseen.
  - intros [= <- <-]. by rewrite app_nil_r.
  - rewrite foldM_cons.
    destruct (remove_collection app n roots st) as [[roots1|e] s1] eqn:Hstep;
      [|done].
    intros Hrest. rewrite (cons_middle n seen names), (assoc_L (++)).
    refine (IH _ _ _ _ _ _ Hrest).
    apply Forall_app. split.
    + eapply Forall_impl; [exact Hseen|]. intros n' Hn'. cbn beta in *.
      eapply clean_shrinks; [|exact Hn'].
      by eapply shrinking_remove_collection.
    + apply Forall_singleton. by eapply remove_collection_cleans.
Qed.

Lemma scan_loop_noop app collection_name ks st :
  (∀ e, entry_matches collection_name e (lstat (tree st) [e]) = false) →
  forM_ (remove_info app collection_name) ks st = (Return tt, st).
Proof.
  intros Hnone. induction ks as [|k ks IH]; [done|]. cbn [forM_].
  assert (remove_info app collection_name k st = (Return tt, st)) as Hstep
    by (by rewrite remove_info_eq, Hnone).
  by rewrite (bind_Return _ _ _ _ _ Hstep).
Qed.

Lemma remove_infos_noop app collection_name st :
  is_dir (tree st) [] = true →
  (∀ e, entry_matches collection_name e (lstat (tree st) [e]) = false) →
  remove_infos app collection_name st = (Return tt, st).
Proof.
  intros Hroot Hnone. unfold remove_infos, is_dir in *.
  destruct (stat (tree st) []) as [[|m| | |]|] eqn:Hstat; try done.
  assert (iterdir app collection_root st = (Return (map_to_list m).*1, st)) as Hiter.
  { rewrite iterdir_eq. unfold collection_root. by rewrite Hstat. }
  rewrite (bind_Return _ _ _ _ _ Hiter). by apply scan_loop_noop.
Qed.

(** On a clean tree the step for a name finds nothing and changes
    nothing. *)
Lemma remove_collection_clean app collection_name roots st :
  clean collection_name (tree st) →
  ∃ roots' es,
    remove_collection app collection_name roots st = (Return roots', emitted st es).
Proof.
  unfold clean.
  destruct (split_name collection_name) as [[namespace name]|e] eqn:Hsplit;
    [|done].
  cbn zeta. intros [Hpath Hmeta].
  rewrite (remove_collection_eq _ _ _ _ _ _ Hsplit). cbn zeta.
  rewrite remove_collection_path_absent by done.
  rewrite emitted_twice. cbn [emitted tree].
  destruct (exists_ (tree st) (path_join collection_root namespace)) eqn:Hns;
    [|by eexists _, _].
  destruct (Hmeta eq_refl) as [Hroot Hnone].
  rewrite remove_infos_noop by done. by eexists _, _.
Qed.

Lemma loop_on_clean_tree app names :
  ∀ roots st,
    Forall (λ n, clean n (tree st)) names →
    ∃ roots' es,
      foldM (remove_collection app) names roots st = (Return roots', emitted st es).
Proof.
  induction names as [|n names IH]; intros roots st Hclean.
  - exists roots, []. by rewrite emitted_nothing.
  - apply Forall_cons in Hclean as [Hn Hnames]. rewrite foldM_cons.
    destruct (remove_collection_clean app n roots st Hn) as (roots1 & es1 & ->).
    destruct (IH roots1 (emitted st es1) Hnames) as (roots' & es & ->).
    rewrite emitted_twice. by eexists _, _.
Qed.

(** *** The two [rmdir] phases never raise *)

Lemma remove_namespace_root_returns app p st :
  ∃ st', remove_namespace_root app p st = (Return tt, st').
Proof.
  unfold remove_namespace_root, try_except, mbind, M_bind. rewrite rmdir_eq.
  unfold nothing_at.
  destruct (lstat (tree st) p) as [[|m| | |]|]; try destruct (map_to_list m);
    try destruct (not_a_directory (tree st) p); by eexists.
Qed.

Lemma remove_namespace_roots_return app roots st :
  ∃ st', forM_ (remove_namespace_root app) roots st = (Return tt, st').
Proof.
  revert st. induction roots as [|p roots IH]; intros st; [by eexists|].
  cbn [forM_]. destruct (remove_namespace_root_returns app p st) as [s1 Hstep].
  rewrite (bind_Return _ _ _ _ _ Hstep). apply IH.
Qed.

Lemma remove_collection_root_returns app st :
  ∃ st', remove_collection_root app st = (Return tt, st').
Proof.
  unfold remove_collection_root.
  unfold mbind at 1, M_bind at 1, get_tree at 1.
  destruct (negb _); [by eexists|].
  unfold try_except, mbind, M_bind. rewrite rmdir_eq. unfold nothing_at.
  destruct (lstat (tree st) collection_root) as [[|m| | |]|];
    try destruct (map_to_list m);
    try destruct (not_a_directory (tree st) collection_root); by eexists.
Qed.

(** *** Running twice *)

Lemma first_run_cleans app st st1 :
  _remove_collections app st = (Return tt, st1) →
  Forall (λ n, clean n (tree st1)) (collection_names app).
Proof.
  unfold _remove_collections. intros Hrun.
  apply bind_Return_inv in Hrun as (roots & sA & Hloop & Hrun).
  apply bind_Return_inv in Hrun as ([] & sB & Hroots & Hroot).
  pose proof (loop_cleans app _ [] _ _ _ _ (Forall_nil_2 _) Hloop) as Hclean.
  eapply Forall_impl; [exact Hclean|]. intros n Hn. cbn beta in *.
  eapply clean_shrinks; [|exact Hn].
  eapply shrinks_trans.
  - by eapply shrinking_remove_collection_root.
  - eapply (shrinking_forM_ (remove_namespace_root app)); [|exact Hroots].
    intros p. apply shrinking_remove_namespace_root.
Qed.

Lemma run_on_clean_tree app st :
  Forall (λ n, clean n (tree st)) (collection_names app) →
  ∃ st', _remove_collections app st = (Return tt, st').
Proof.
  intros Hclean. unfold _remove_collections.
  destruct (loop_on_clean_tree app _ [] st Hclean) as (roots & es & Hloop).
  rewrite (bind_Return _ _ _ _ _ Hloop).
  destruct (remove_namespace_roots_return app roots (emitted st es))
    as [sB Hroots].
  rewrite (bind_Return _ _ _ _ _ Hroots).
  apply remove_collection_root_returns.
Qed.

(** C8, as the code has it: for names without path separators, when
    [_remove_collections] has run to its end on any tree, a second run on
    the tree it left runs to its end as well: what is already absent
    (collection path, metadata directory, namespace root, collection
    root) is never an error.  A first run that raises has not finished
    its work, and nothing is promised for the run after it. *)
Theorem remove_collections_twice_raises_nothing app st st1 :
  Forall plain_name (collection_names app) →
  _remove_collections app st = (Return tt, st1) →
  ∃ st2, _remove_collections app st1 = (Return tt, st2).
Proof.
  intros _ Hfirst. apply run_on_clean_tree. by eapply first_run_cleans.
Qed.

Lemma plain_names_of_app : Forall plain_name (collection_names app).
Proof. repeat constructor. Defined.

Lemma remove_collections_twice_raises_nothing_witness :
  let st1 := (_remove_collections app (start (Some installed))).2 in
  ∃ st2, _remove_collections app st1 = (Return tt, st2).
Proof.
  intros st1.
  exact (remove_collections_twice_raises_nothing app (start (Some installed)) st1
           plain_names_of_app ltac:(vm_compute; reflexivity)).
Defined.

(** C8 as stated fails: with a regular file where a collection should
    be, the first run raises and leaves the tree as it found it, and the
    second run, on that tree, raises again. *)
Lemma second_run_raises_where_first_did :
  (_remove_collections app (start (Some file_in_the_way))).1
    = Raise (NotADirectoryError "/venv/lib/site-packages/ansible_collections/ns/name")
  ∧ tree (_remove_collections app (start (Some file_in_the_way))).2
      = Some file_in_the_way
  ∧ (_remove_collections app
       (_remove_collections app (start (Some file_in_the_way))).2).1
      = Raise (NotADirectoryError "/venv/lib/site-packages/ansible_collections/ns/name").
Proof. by vm_compute. Qed.

(** A first run need not reach its end: a regular file where the
    collection should be makes [shutil.rmtree] raise, on the first run as
    on any later one, and the tree stays as it was. *)
Example regular_file_at_collection_path_raises :
  _remove_collections app (start (Some file_in_the_way)) =
    (Raise (NotADirectoryError "/venv/lib/site-packages/ansible_collections/ns/name"),
     emitted (start (Some file_in_the_way))
       [Log DEBUG "Checking ansible.utils at /venv/lib/site-packages/ansible_collections/ansible/utils";
        Log DEBUG "Failed to find ansible.utils: /venv/lib/site-packages/ansible_collections/ansible/utils";
        Log DEBUG "Checking ns.name at /venv/lib/site-packages/ansible_collections/ns/name";
        Log DEBUG "Exists: /venv/lib/site-packages/ansible_collections/ns/name"]).
Proof. vm_compute. reflexivity. Qed.
End UnInstallerSpec.


(** * More properties of the checker *)
Module CheckerMore.
Import Checker Examples CheckerTerms MoreExamples CheckerSpec.

(** ** The Python phase, whatever the dry run did *)

Lemma python_deps_eq cfg env st :
  builder_introspect env cfg = None →
  _python_deps cfg env st =
    match file_at env (missing_file cfg) with
    | Absent =>
        (Raise (FileNotFoundError (missing_file cfg)),
         emitted st (dry_run_events cfg env))
    | NotJSON msg => (Raise (JSONDecodeError msg), emitted st (dry_run_events cfg env))
    | Document doc => report_findings doc (emitted st (dry_run_events cfg env))
    end.
Proof.
  intros Hintro. unfold dry_run_events.
  destruct (decide (exit_status env (dry_run_command cfg) = 0%Z)) as [Hz|Hnz].
  - unfold _python_deps, dry_run_and_load.
    rewrite Hintro. unfold mbind at 1 2 3, M_bind. cbn [mret M_ret].
    unfold try_except. rewrite subprocess_run_ok by done.
    rewrite load_report_eq, emitted_app. cbn [app].
    by destruct (file_at env (missing_file cfg)).
  - by rewrite python_deps_after_failure.
Qed.

Lemma report_findings_nonempty doc p ps st :
  install doc = Some (p :: ps) →
  report_findings doc st =
    match _collections_missing st with
    | Some b =>
        (Return tt,
         emitted st (missing_python_events (p :: ps)
                     ++ if b then [disclaimer] else []))
    | None =>
        (Raise (AttributeError
           "'Checker' object has no attribute '_collections_missing'"),
         emitted st (missing_python_events (p :: ps)))
    end.
Proof.
  intros Hinstall. unfold report_findings. rewrite Hinstall.
  unfold mbind, M_bind, log, hint, emit, get_collections_missing.
  rewrite !emitted_app. cbn [emitted _collections_missing app].
  destruct (_collections_missing st) as [[|]|] eqn:Hflag; cbn [mret M_ret];
    unfold missing_python_events, disclaimer, emitted;
    cbn [trace _collections_missing app];
    rewrite <- ?(assoc_L (++)); cbn [app]; by rewrite ?app_nil_r.
Qed.

(** X5: when the report has no install list or an empty one,
    [_python_deps] emits the confirmation after the dry run and returns;
    it does not read [_collections_missing], so this holds on any
    checker state. *)
Theorem empty_report_confirms cfg env st doc :
  builder_introspect env cfg = None →
  file_at env (missing_file cfg) = Document doc →
  install doc = None ∨ install doc = Some [] →
  _python_deps cfg env st =
    (Return tt, emitted st (dry_run_events cfg env ++ [python_installed_note])).
Proof.
  intros Hintro Hfile Hinstall. rewrite python_deps_eq, Hfile by done.
  unfold report_findings.
  destruct Hinstall as [-> | ->]; unfold note, emit; by rewrite emitted_app.
Qed.

Lemma empty_report_confirms_witness :
  _python_deps cfg (env_of [] 0 (Document empty_report)) init =
    (Return tt,
     emitted init
       (dry_run_events cfg (env_of [] 0 (Document empty_report))
        ++ [python_installed_note])).
Proof.
  exact (empty_report_confirms cfg (env_of [] 0 (Document empty_report)) init
           empty_report eq_refl eq_refl (or_intror eq_refl)).
Defined.

(** X6: on a checker whose collection phase has not run, a report that
    lists packages makes [_python_deps] emit the warning and the hint and
    then raise [AttributeError]: the attribute is read only after both. *)
Theorem unset_flag_raises_after_reporting cfg env st doc p ps :
  builder_introspect env cfg = None →
  file_at env (missing_file cfg) = Document doc →
  install doc = Some (p :: ps) →
  _collections_missing st = None →
  _python_deps cfg env st =
    (Raise (AttributeError
       "'Checker' object has no attribute '_collections_missing'"),
     emitted st (dry_run_events cfg env ++ missing_python_events (p :: ps))).
Proof.
  intros Hintro Hfile Hinstall Hflag. rewrite python_deps_eq, Hfile by done.
  rewrite (report_findings_nonempty _ _ _ _ Hinstall).
  cbn [emitted _collections_missing]. rewrite Hflag. by rewrite emitted_app.
Qed.

Lemma unset_flag_raises_after_reporting_witness :
  _python_deps cfg (env_of [] 0 (Document report_xy)) init =
    (Raise (AttributeError
       "'Checker' object has no attribute '_collections_missing'"),
     emitted init
       (dry_run_events cfg (env_of [] 0 (Document report_xy))
        ++ missing_python_events
             [ {| name := "x"; pkg_version := "1.0" |};
               {| name := "y"; pkg_version := "2.0" |} ])).
Proof.
  exact (unset_flag_raises_after_reporting cfg
           (env_of [] 0 (Document report_xy)) init report_xy _ _
           eq_refl eq_refl eq_refl eq_refl).
Defined.

(** ** The collection loop, step by step *)

Section WithPackaging.
Context `{Packaging}.

Lemma loop_step_refl collections missing st :
  loop_step collections missing st missing st.
Proof.
  exists []. rewrite emitted_nil, orb_false_r. by repeat split.
Qed.

Lemma loop_step_emitted collections missing st es missing' :
  missing' = missing || existsb is_warning es →
  Forall (hint_for_absent collections) es →
  Forall loop_event es →
  loop_step collections missing st missing' (emitted st es).
Proof. intros -> Hhints Hevents. by exists es. Qed.

Lemma loop_step_trans collections b0 s0 b1 s1 b2 s2 :
  loop_step collections b0 s0 b1 s1 →
  loop_step collections b1 s1 b2 s2 →
  loop_step collections b0 s0 b2 s2.
Proof.
  intros (es1 & -> & -> & Hh1 & He1) (es2 & -> & -> & Hh2 & He2).
  exists (es1 ++ es2). rewrite emitted_app, existsb_app, orb_assoc.
  repeat split; by apply Forall_app.
Qed.

Lemma check_dep_step collections collection_name item missing st missing' st' :
  check_dep collections collection_name item missing st = (Return missing', st') →
  loop_step collections missing st missing' st'.
Proof.
  destruct item as [dep version]. rewrite check_dep_eq.
  destruct (SpecifierSet version) as [spec|e]; [|done].
  destruct (collections_get collections dep) as [details|] eqn:Hget.
  - destruct (Version (installed_version details)) as [v|e]; [|done].
    destruct (contains spec v); intros [= <- <-]; apply loop_step_emitted;
      cbn [existsb is_warning]; rewrite ?orb_false_r, ?orb_true_r;
      by repeat constructor.
  - intros [= <- <-]. apply loop_step_emitted;
      cbn [existsb is_warning]; rewrite ?orb_false_r, ?orb_true_r;
      repeat constructor.
    by exists dep.
Qed.

Lemma foldM_loop_step {A} (f : A → bool → M state bool) collections l :
  (∀ a b s b' s', f a b s = (Return b', s') → loop_step collections b s b' s') →
  ∀ b s b' s',
    foldM f l b s = (Return b', s') → loop_step collections b s b' s'.
Proof.
  intros Hf b s b' s'.
  refine (foldM_invariant f (λ b1 s1, loop_step collections b s b1 s1) l _
            b s b' s' (loop_step_refl _ _ _)).
  intros a b1 s1 b2 s2 H1 H2. eapply loop_step_trans; [exact H1|by eapply Hf].
Qed.

Lemma check_collection_step collections item missing st missing' st' :
  check_collection collections item missing st = (Return missing', st') →
  loop_step collections missing st missing' st'.
Proof.
  destruct item as [collection_name details]. rewrite check_collection_eq.
  cbn zeta. set (st1 := emitted st [_]).
  assert (loop_step collections missing st missing st1) as Hfirst.
  { apply loop_step_emitted; cbn [existsb is_warning];
      rewrite ?orb_false_r; by repeat constructor. }
  destruct (dependencies details) as [|d deps].
  - intros [= <- <-]. eapply loop_step_trans; [exact Hfirst|].
    apply loop_step_emitted; cbn [existsb is_warning];
      rewrite ?orb_false_r; by repeat constructor.
  - intros Hrun. eapply loop_step_trans; [exact Hfirst|].
    eapply foldM_loop_step; [|exact Hrun]. intros ?????. apply check_dep_step.
Qed.

Lemma collection_loop_step collections st missing' st' :
  foldM (check_collection collections) collections false st = (Return missing', st') →
  loop_step collections false st missing' st'.
Proof. apply foldM_loop_step. intros ?????. apply check_collection_step. Qed.

(** What [_collection_deps] leaves when it returns. *)
Lemma collection_deps_returns cfg env st st' :
  _collection_deps cfg env st = (Return tt, st') →
  ∃ es,
    loop_step
      (collect_manifests env (site_pkg_collections_path cfg) (venv_cache_dir cfg))
      false st (existsb is_warning es) (emitted st es)
    ∧ st' = {| trace := trace st ++ es
                 ++ (if existsb is_warning es then [] else [all_installed_note]);
               _collections_missing := Some (existsb is_warning es) |}.
Proof.
  rewrite collection_deps_eq. cbn zeta.
  destruct (foldM _ _ false st) as [[b|e] s1] eqn:Hloop; [|done].
  pose proof (collection_loop_step _ _ _ _ Hloop) as Hstep.
  destruct Hstep as (es & -> & Hb & Hhints & Hevents). cbn [orb] in Hb. subst b.
  intros Hrun. exists es. split; [by exists es|].
  destruct (existsb is_warning es); injection Hrun as <-; cbn [emitted trace];
    by rewrite ?app_nil_r, <- ?(assoc_L (++)).
Qed.

Lemma warning_among es : existsb is_warning es = true ↔ ∃ m, Log WARNING m ∈ es.
Proof.
  rewrite existsb_exists. split.
  - intros (ev & Hin & Hw). destruct ev as [[] m| | | |]; try done.
    exists m. by apply list_elem_of_In.
  - intros (m & Hin). exists (Log WARNING m). split; [by apply list_elem_of_In|done].
Qed.

(** X3: when [_collection_deps] returns, the attribute
    [_collections_missing] is set, and it is true exactly when the phase
    has logged a warning; the confirmation that all dependant collections
    are installed is emitted exactly when it is false. *)
Theorem flag_set_exactly_when_warned cfg env st st' :
  _collection_deps cfg env st = (Return tt, st') →
  ∃ es b,
    trace st' = trace st ++ es
    ∧ _collections_missing st' = Some b
    ∧ (b = true ↔ ∃ m, Log WARNING m ∈ es)
    ∧ (b = false ↔ all_installed_note ∈ es).
Proof.
  intros Hrun.
  destruct (collection_deps_returns _ _ _ _ Hrun) as (es & Hstep & ->).
  destruct Hstep as (es' & Hes' & _ & _ & Hevents).
  assert (es' = es) as -> by (apply (f_equal trace) in Hes'; cbn in Hes';
                              by apply (inj (app (trace st))) in Hes').
  assert (all_installed_note ∉ es) as Hnote.
  { intros Hin. rewrite Forall_forall in Hevents. by apply Hevents in Hin. }
  destruct (existsb is_warning es) eqn:Hw.
  - exists es, true. rewrite app_nil_r. repeat split; try done.
    + intros _. by apply warning_among.
  - exists (es ++ [all_installed_note]), false. repeat split; try done.
    + intros (m & Hin). apply elem_of_app in Hin as [Hin|Hin].
      * assert (existsb is_warning es = true) by (apply warning_among; eauto).
        congruence.
      * by apply list_elem_of_singleton in Hin.
    + intros _. apply elem_of_app. right. by left.
Qed.

(** **** Whatever the outcome *)

Lemma grown_by_refl P st : grown_by P st st.
Proof. exists []. by rewrite app_nil_r. Qed.

Lemma grown_by_trans P s1 s2 s3 :
  grown_by P s1 s2 → grown_by P s2 s3 → grown_by P s1 s3.
Proof.
  intros (es1 & H1 & Hes1) (es2 & H2 & Hes2). exists (es1 ++ es2).
  split; [by rewrite H2, H1, <- (assoc_L (++))|by apply Forall_app].
Qed.

Lemma grown_by_emitted P st es : Forall P es → grown_by P st (emitted st es).
Proof. intros Hes. by exists es. Qed.

Lemma every_outcome_foldM {A} P (f : A → bool → M state bool) l :
  (∀ a b, every_outcome (grown_by P) (f a b)) →
  ∀ b, every_outcome (grown_by P) (foldM f l b).
Proof.
  intros Hf. induction l as [|a l IH]; intros b st r st'.
  - intros [= <- <-]. apply grown_by_refl.
  - rewrite foldM_cons. destruct (f a b st) as [[b1|e] s1] eqn:Hstep.
    + intros Hrest. eapply grown_by_trans; [by eapply Hf|by eapply IH].
    + intros [= <- <-]. by eapply Hf.
Qed.

Lemma check_dep_hints collections collection_name item missing :
  every_outcome (grown_by (hint_for_absent collections))
    (check_dep collections collection_name item missing).
Proof.
  intros st r st'. destruct item as [dep version]. rewrite check_dep_eq.
  destruct (SpecifierSet version) as [spec|e];
    [|intros [= <- <-]; apply grown_by_refl].
  destruct (collections_get collections dep) as [details|] eqn:Hget.
  - destruct (Version (installed_version details)) as [v|e];
      [|intros [= <- <-]; apply grown_by_refl].
    destruct (contains spec v); intros [= <- <-]; apply grown_by_emitted;
      by repeat constructor.
  - intros [= <- <-]. apply grown_by_emitted. repeat constructor. by exists dep.
Qed.

Lemma check_collection_hints collections item missing :
  every_outcome (grown_by (hint_for_absent collections))
    (check_collection collections item missing).
Proof.
  intros st r st'. destruct item as [collection_name details].
  rewrite check_collection_eq. cbn zeta. set (st1 := emitted st [_]).
  assert (grown_by (hint_for_absent collections) st st1) as Hfirst
    by (apply grown_by_emitted; by repeat constructor).
  destruct (dependencies details) as [|d deps].
  - intros [= <- <-]. eapply grown_by_trans; [exact Hfirst|].
    apply grown_by_emitted. by repeat constructor.
  - intros Hrun. eapply grown_by_trans; [exact Hfirst|].
    eapply (every_outcome_foldM _ (check_dep collections collection_name));
      [|exact Hrun].
    intros a b. apply check_dep_hints.
Qed.

Lemma collection_deps_hints cfg env :
  every_outcome
    (grown_by
       (hint_for_absent
          (collect_manifests env (site_pkg_collections_path cfg)
             (venv_cache_dir cfg))))
    (_collection_deps cfg env).
Proof.
  intros st r st'. rewrite collection_deps_eq. cbn zeta.
  set (collections := collect_manifests _ _ _).
  destruct (foldM _ _ false st) as [r1 s1] eqn:Hloop.
  assert (grown_by (hint_for_absent collections) st s1) as (es & Hes & Hhints).
  { eapply (every_outcome_foldM _ (check_collection collections)); [|exact Hloop].
    intros a b. apply check_collection_hints. }
  destruct r1 as [[|]|e]; intros [= <- <-].
  - by exists es.
  - exists (es ++ [Note "✓ All dependant collections are installed."]).
    cbn [trace]. rewrite Hes, <- (assoc_L (++)).
    split; [done|]. apply Forall_app. split; [done|by repeat constructor].
  - by exists es.
Qed.

(** X4: every hint the collection phase emits is the suggestion to
    install a collection that is not in the universe, whether the phase
    returns or is ended by an exception. *)
Theorem hints_only_for_absent_collections cfg env st r st' :
  _collection_deps cfg env st = (r, st') →
  ∃ es,
    trace st' = trace st ++ es
    ∧ ∀ m, Hint m ∈ es →
        ∃ dep,
          m = install_hint_msg dep
          ∧ collections_get
              (collect_manifests env (site_pkg_collections_path cfg)
                 (venv_cache_dir cfg)) dep = None.
Proof.
  intros Hrun.
  destruct (collection_deps_hints cfg env st r st' Hrun) as (es & Hes & Hhints).
  exists es. split; [done|]. intros m Hin.
  rewrite Forall_forall in Hhints. by apply (Hhints _ Hin).
Qed.

(** ** Findings and their effect on the whole phase *)

Lemma loop_reaches_pair collections collection_name details dep version evs
    st missing' st' :
  (collection_name, details) ∈ collections →
  (dep, version) ∈ dependencies details →
  (∀ b s, check_dep collections collection_name (dep, version) b s
            = (Return true, emitted s evs)) →
  foldM (check_collection collections) collections false st = (Return missing', st') →
  missing' = true ∧ ∀ ev, ev ∈ evs → ev ∈ trace st'.
Proof.
  intros Hc Hd Hpair.
  assert (∀ l b s b' s',
            (collection_name, details) ∈ l →
            foldM (check_collection collections) l b s = (Return b', s') →
            b' = true ∧ ∀ ev, ev ∈ evs → ev ∈ trace s') as Hloop;
    [|by apply Hloop].
  intros l b s b' s' Hl.
  destruct (list_elem_of_split _ _ Hl) as (l1 & l2 & ->).
  rewrite foldM_app.
  destruct (foldM _ l1 b s) as [[b1|e] s1]; [|done]. rewrite foldM_cons.
  rewrite check_collection_deps
    by (intros Hnil; rewrite Hnil in Hd; by apply elem_of_nil in Hd).
  destruct (list_elem_of_split _ _ Hd) as (d1 & d2 & ->).
  rewrite foldM_app.
  destruct (foldM _ d1 b1 _) as [[b2|e] s2]; [|done].
  rewrite foldM_cons, Hpair.
  destruct (foldM _ d2 true _) as [[b3|e] s3] eqn:Hinner; [|done].
  intros Houter.
  pose proof (foldM_loop_step _ collections _
                (λ a b s b' s', check_dep_step collections collection_name a b s b' s')
                _ _ _ _ Hinner) as Hstep1.
  pose proof (foldM_loop_step _ collections _
                (λ a b s b' s', check_collection_step collections a b s b' s')
                _ _ _ _ Houter) as Hstep2.
  destruct (loop_step_trans _ _ _ _ _ _ _ Hstep1 Hstep2) as (es & -> & -> & _).
  split; [done|]. intros ev Hev. cbn [emitted trace].
  apply elem_of_app. left. apply elem_of_app. by right.
Qed.

(** X1: a dependency that is not in the universe, with a constraint that
    parses, makes the checker log the warning "... but it is not
    installed." and emit the hint to install it; whenever
    [_collection_deps] then reaches its end, [_collections_missing] is
    true and both records are in the trace. *)
Theorem not_installed_warns_and_hints
    cfg env collection_name details dep version spec :
  let collections :=
    collect_manifests env (site_pkg_collections_path cfg) (venv_cache_dir cfg) in
  let findings :=
    [Log WARNING (not_installed_msg collection_name dep version);
     Hint (install_hint_msg dep)] in
  (collection_name, details) ∈ collections →
  (dep, version) ∈ dependencies details →
  collections_get collections dep = None →
  SpecifierSet version = Return spec →
  (∀ missing st,
     check_dep collections collection_name (dep, version) missing st
       = (Return true, emitted st findings))
  ∧ (∀ st st',
       _collection_deps cfg env st = (Return tt, st') →
       _collections_missing st' = Some true
       ∧ ∀ ev, ev ∈ findings → ev ∈ trace st').
Proof.
  intros collections findings Hc Hd Hget Hspec.
  assert (∀ missing st,
            check_dep collections collection_name (dep, version) missing st
              = (Return true, emitted st findings)) as Hpair
    by (intros; by rewrite check_dep_eq, Hspec, Hget).
  split; [done|]. intros st st'. rewrite collection_deps_eq. cbn zeta.
  fold collections.
  destruct (foldM _ _ false st) as [[b|e] s1] eqn:Hloop; [|done].
  destruct (loop_reaches_pair _ _ _ _ _ _ _ _ _ Hc Hd Hpair Hloop) as [-> Hin].
  by intros [= <-].
Qed.

Lemma foldM_keeps {A} (f : A → bool → M state bool) (P : event → Prop) l :
  (∀ a b s, a ∈ l → ∃ es, f a b s = (Return b, emitted s es) ∧ Forall P es) →
  ∀ b s, ∃ es, foldM f l b s = (Return b, emitted s es) ∧ Forall P es.
Proof.
  induction l as [|a l IH]; intros Hf b s.
  - exists []. by rewrite emitted_nil.
  - rewrite foldM_cons. destruct (Hf a b s) as (es1 & -> & Hes1); [left|].
    destruct (IH (λ a' b' s' Ha', Hf a' b' s' (list_elem_of_further _ _ _ Ha'))
                b (emitted s es1)) as (es2 & -> & Hes2).
    exists (es1 ++ es2). rewrite emitted_app. split; [done|by apply Forall_app].
Qed.

(** X2: when every declared dependency is installed in a version inside
    its constraint, [_collection_deps] returns having logged debug
    records only, followed by the one confirmation that all dependant
    collections are installed; [_collections_missing] is false. *)
Theorem satisfied_universe_confirms cfg env st :
  all_satisfied
    (collect_manifests env (site_pkg_collections_path cfg) (venv_cache_dir cfg)) →
  ∃ es,
    Forall is_debug es
    ∧ _collection_deps cfg env st =
        (Return tt,
         {| trace := trace st ++ es ++ [all_installed_note];
            _collections_missing := Some false |}).
Proof.
  set (collections := collect_manifests _ _ _). intros Hsat.
  assert (∀ l, l ⊆ collections →
            ∃ es, foldM (check_collection collections) l false st
                    = (Return false, emitted st es) ∧ Forall is_debug es) as Hloop.
  { intros l Hl. apply foldM_keeps. intros [name d] b s Hin.
    rewrite check_collection_eq. cbn zeta.
    destruct (dependencies d) as [|d0 deps] eqn:Hdeps.
    - eexists. rewrite emitted_app. split; [done|by repeat constructor].
    - destruct (foldM_keeps (check_dep collections name) is_debug (d0 :: deps))
        with (b := b) (s := emitted s [Log DEBUG ("Checking dependencies for "
                                                  +:+ name +:+ ".")])
        as (es & -> & Hes).
      + intros [dep version] b1 s1 Hdin.
        destruct (Hsat name d dep version) as (sp & dd & v & Hsp & Hget & Hv & Hok);
          [by apply Hl|by rewrite Hdeps|].
        rewrite check_dep_eq, Hsp, Hget, Hv, Hok.
        eexists. split; [done|by repeat constructor].
      + eexists. rewrite emitted_app. split; [done|].
        apply Forall_cons. by split. }
  destruct (Hloop collections) as (es & Hrun & Hes); [done|].
  exists es. split; [done|]. rewrite collection_deps_eq. cbn zeta.
  fold collections. rewrite Hrun. cbn [emitted trace].
  by rewrite <- (assoc_L (++)).
Qed.

(** X8: in [run], when the collection phase has returned and the report
    lists packages, the Python phase emits the warning and the hint for
    them and then the disclaimer about missing collections exactly when
    the collection phase had logged a warning. *)
Theorem disclaimer_follows_collection_warnings cfg env st s1 doc p ps :
  _collection_deps cfg env st = (Return tt, s1) →
  builder_introspect env cfg = None →
  file_at env (missing_file cfg) = Document doc →
  install doc = Some (p :: ps) →
  ∃ es b,
    trace s1 = trace st ++ es
    ∧ (b = true ↔ ∃ m, Log WARNING m ∈ es)
    ∧ run cfg env st =
        (Return tt,
         emitted s1 (dry_run_events cfg env
                     ++ missing_python_events (p :: ps)
                     ++ if b then [disclaimer] else [])).
Proof.
  intros Hfirst Hintro Hfile Hinstall.
  destruct (collection_deps_returns _ _ _ _ Hfirst) as (es & Hstep & Hs1).
  destruct Hstep as (es' & Hes' & _ & _ & Hevents).
  assert (es' = es) as -> by (apply (f_equal trace) in Hes'; cbn in Hes';
                              by apply (inj (app (trace st))) in Hes').
  exists (es ++ if existsb is_warning es then [] else [all_installed_note]),
    (existsb is_warning es).
  split; [by rewrite Hs1|]. split.
  - rewrite warning_among. split.
    + intros (m & Hin). exists m. apply elem_of_app. by left.
    + intros (m & Hin). exists m. apply elem_of_app in Hin as [Hin|Hin]; [done|].
      destruct (existsb is_warning es); [by apply elem_of_nil in Hin|].
      by apply list_elem_of_singleton in Hin.
  - unfold run. unfold mbind at 1, M_bind. rewrite Hfirst.
    rewrite python_deps_eq, Hfile by done.
    rewrite (report_findings_nonempty _ _ _ _ Hinstall).
    cbn [emitted _collections_missing]. rewrite Hs1. cbn [_collections_missing].
    by rewrite emitted_app.
Qed.
End WithPackaging.

Lemma flag_set_exactly_when_warned_witness :
  ∃ es b,
    trace (_collection_deps cfg (env_of mismatch_universe 0 Absent) init).2
      = trace init ++ es
    ∧ _collections_missing
        (_collection_deps cfg (env_of mismatch_universe 0 Absent) init).2 = Some b
    ∧ (b = true ↔ ∃ m, Log WARNING m ∈ es)
    ∧ (b = false ↔ all_installed_note ∈ es).
Proof.
  exact (flag_set_exactly_when_warned (H:=Dotted.packaging) cfg
           (env_of mismatch_universe 0 Absent) init _
           ltac:(vm_compute; reflexivity)).
Defined.

Lemma hints_only_for_absent_collections_witness :
  (_collection_deps cfg (env_of missing_then_corrupt_universe 0 Absent) init).1
    = Raise (InvalidSpecifier "Invalid specifier: 'bogus'")
  ∧ ∃ es,
      trace (_collection_deps cfg
               (env_of missing_then_corrupt_universe 0 Absent) init).2
        = trace init ++ es
      ∧ ∀ m, Hint m ∈ es →
          ∃ dep, m = install_hint_msg dep
                 ∧ collections_get missing_then_corrupt_universe dep = None.
Proof.
  split; [vm_compute; reflexivity|].
  exact (hints_only_for_absent_collections (H:=Dotted.packaging) cfg
           (env_of missing_then_corrupt_universe 0 Absent) init _ _
           (surjective_pairing _)).
Defined.

Lemma missing_universe_facts :
  ("a.b", {| version := "1.0.0"; dependencies := [("c.d", ">=1.0")] |})
    ∈ missing_universe
  ∧ ("c.d", ">=1.0") ∈ [("c.d", ">=1.0")].
Proof. split; apply list_elem_of_here. Defined.

Lemma not_installed_warns_and_hints_witness :
  _collections_missing
    (_collection_deps cfg (env_of missing_universe 0 Absent) init).2 = Some true
  ∧ ∀ ev,
      ev ∈ [Log WARNING (not_installed_msg "a.b" "c.d" ">=1.0");
            Hint (install_hint_msg "c.d")] →
      ev ∈ trace (_collection_deps cfg (env_of missing_universe 0 Absent) init).2.
Proof.
  exact (proj2 (not_installed_warns_and_hints (H:=Dotted.packaging) cfg
                  (env_of missing_universe 0 Absent)
                  "a.b" {| version := "1.0.0"; dependencies := [("c.d", ">=1.0")] |}
                  "c.d" ">=1.0" [(Dotted.GE, Dotted.final [1; 0]%nat)]
                  (proj1 missing_universe_facts) (proj2 missing_universe_facts)
                  eq_refl eq_refl)
           init _ ltac:(vm_compute; reflexivity)).
Defined.

Lemma satisfied_universe_facts : all_satisfied (H:=Dotted.packaging) satisfied_universe.
Proof.
  intros name d dep version Hin Hdep.
  apply elem_of_cons in Hin as [[= -> ->]|Hin].
  - apply list_elem_of_singleton in Hdep as [= -> ->].
    exists [(Dotted.GE, Dotted.final [1; 0]%nat); (Dotted.LT, Dotted.final [2; 0]%nat)],
      {| version := "1.5.0"; dependencies := [] |}, (Dotted.final [1; 5; 0]%nat).
    by repeat split.
  - apply list_elem_of_singleton in Hin as [= -> ->].
    by apply elem_of_nil in Hdep.
Defined.

Lemma satisfied_universe_confirms_witness :
  ∃ es,
    Forall is_debug es
    ∧ _collection_deps cfg (env_of satisfied_universe 0 Absent) init =
        (Return tt,
         {| trace := trace init ++ es ++ [all_installed_note];
            _collections_missing := Some false |}).
Proof.
  exact (satisfied_universe_confirms (H:=Dotted.packaging) cfg
           (env_of satisfied_universe 0 Absent) init satisfied_universe_facts).
Defined.

Lemma disclaimer_follows_collection_warnings_witness :
  ∃ es b,
    trace (_collection_deps cfg (env_of mismatch_universe 0 (Document report_xy)) init).2
      = trace init ++ es
    ∧ (b = true ↔ ∃ m, Log WARNING m ∈ es)
    ∧ run cfg (env_of mismatch_universe 0 (Document report_xy)) init =
        (Return tt,
         emitted (_collection_deps cfg
                    (env_of mismatch_universe 0 (Document report_xy)) init).2
           (dry_run_events cfg (env_of mismatch_universe 0 (Document report_xy))
            ++ missing_python_events
                 [ {| name := "x"; pkg_version := "1.0" |};
                   {| name := "y"; pkg_version := "2.0" |} ]
            ++ if b then [disclaimer] else [])).
Proof.
  exact (disclaimer_follows_collection_warnings (H:=Dotted.packaging) cfg
           (env_of mismatch_universe 0 (Document report_xy)) init _ report_xy _ _
           ltac:(vm_compute; reflexivity) eq_refl eq_refl eq_refl).
Defined.
End CheckerMore.


(** * More properties of the uninstaller *)
Module UnInstallerMore.
Import UnInstaller UnExamples UnInstallerTerms MoreUnExamples.
Import CheckerSpec UnInstallerSpec.

Lemma emitted_removed st p es :
  emitted (removed st p) es =
    {| tree := remove (tree st) p; trace := trace st ++ es |}.
Proof. done. Qed.

(** ** What is found at the collection path *)

Lemma remove_collection_path_eq app collection_name p st :
  remove_collection_path app collection_name p st =
    if exists_ (tree st) p then
      match (if is_symlink (tree st) p then unlink app p else rmtree app p)
              (emitted st [Log DEBUG ("Exists: " +:+ path_str app p)]) with
      | (Return _, s') =>
          (Return tt,
           emitted s' [Log INFO ("Removed " +:+ collection_name +:+ ": "
                                 +:+ path_str app p)])
      | (Raise e, s') => (Raise e, s')
      end
    else
      (Return tt,
       emitted st [Log DEBUG ("Failed to find " +:+ collection_name +:+ ": "
                              +:+ path_str app p)]).
Proof.
  unfold remove_collection_path.
  unfold mbind at 1, M_bind at 1, get_tree at 1.
  destruct (exists_ (tree st) p); [|done].
  unfold mbind at 1, M_bind at 1, log at 1, emit at 1.
  unfold mbind at 1, M_bind at 1, get_tree at 1. cbn [emitted tree].
  unfold mbind, M_bind.
  by destruct ((if is_symlink (tree st) p then unlink app p else rmtree app p) _)
    as [[[]|e] s'].
Qed.

(** X11: what [_remove_collections] does at a collection path depends on
    what is there.  Nothing, or a link that dangles: a debug record and no
    change.  A symbolic link that resolves: the link is removed.  A
    directory: it is removed with all it holds.  A regular file:
    [shutil.rmtree] raises [NotADirectoryError] and nothing is removed. *)
Theorem collection_path_by_kind app collection_name p st :
  let found := Log DEBUG ("Exists: " +:+ path_str app p) in
  let gone := Log INFO ("Removed " +:+ collection_name +:+ ": " +:+ path_str app p) in
  (stat (tree st) p = None →
   remove_collection_path app collection_name p st =
     (Return tt,
      emitted st [Log DEBUG ("Failed to find " +:+ collection_name +:+ ": "
                             +:+ path_str app p)]))
  ∧ (is_symlink (tree st) p = true → exists_ (tree st) p = true →
     remove_collection_path app collection_name p st =
       (Return tt, emitted (removed st p) [found; gone]))
  ∧ (∀ entries, lstat (tree st) p = Some (Dir entries) →
     remove_collection_path app collection_name p st =
       (Return tt, emitted (removed st p) [found; gone]))
  ∧ (lstat (tree st) p = Some File →
     remove_collection_path app collection_name p st =
       (Raise (NotADirectoryError (path_str app p)), emitted st [found])).
Proof.
  cbn zeta. rewrite remove_collection_path_eq. unfold exists_, is_symlink, stat.
  destruct (lstat (tree st) p) as [[]|] eqn:Hl; cbn [mbind option_bind deref];
    rewrite ?unlink_eq, ?rmtree_eq; cbn [emitted tree trace]; rewrite ?Hl;
    repeat split; try done; intros; simplify_eq;
    unfold emitted, removed; cbn [tree trace]; by rewrite <- ?(assoc_L (++)).
Qed.

Lemma collection_path_by_kind_witness :
  remove_collection_path app "ns.name" ["ns"; "name"] (start (Some linked)) =
    (Return tt,
     emitted (removed (start (Some linked)) ["ns"; "name"])
       [Log DEBUG ("Exists: " +:+ path_str app ["ns"; "name"]);
        Log INFO ("Removed ns.name: " +:+ path_str app ["ns"; "name"])]).
Proof.
  exact (proj1 (proj2 (collection_path_by_kind app "ns.name" ["ns"; "name"]
                         (start (Some linked)))) eq_refl eq_refl).
Defined.

(** ** The two [rmdir] phases *)

Lemma not_a_directory_lstat t p :
  not_a_directory t p = true → lstat t p = None.
Proof.
  destruct t as [n|]; [|done]. cbn [not_a_directory lstat mbind option_bind].
  revert n. induction p as [|c p IH]; intros n; [done|].
  cbn [not_a_directory_node lstat_node].
  destruct (deref n) as [[|m| | |]|]; try done.
  destruct (m !! c) as [child|]; [apply IH|done].
Qed.

(** X12: the removal of a namespace root never raises.  A root that is
    not there is passed over in silence, unless the way to it leads
    through something that is no directory: that failure is another
    [OSError] and is reported as a warning.  An empty directory is
    removed, with an info record; a directory that is not empty, or
    anything that is no directory, stays and is reported as a warning. *)
Theorem namespace_root_by_kind app p st :
  let failed msg :=
    Log WARNING ("Failed to remove collection namespace root: " +:+ msg) in
  (lstat (tree st) p = None → not_a_directory (tree st) p = false →
   remove_namespace_root app p st = (Return tt, st))
  ∧ (not_a_directory (tree st) p = true →
     remove_namespace_root app p st =
       (Return tt,
        emitted st [failed ("[Errno 20] Not a directory: '"
                            +:+ path_str app p +:+ "'")]))
  ∧ (lstat (tree st) p = Some (Dir ∅) →
     remove_namespace_root app p st =
       (Return tt,
        emitted (removed st p)
          [Log INFO ("Removed collection namespace root: " +:+ path_str app p)]))
  ∧ (∀ entries, lstat (tree st) p = Some (Dir entries) → entries ≠ ∅ →
     remove_namespace_root app p st =
       (Return tt,
        emitted st [failed ("[Errno 39] Directory not empty: '"
                            +:+ path_str app p +:+ "'")]))
  ∧ (∀ n, lstat (tree st) p = Some n → is_dir_node n = false →
     remove_namespace_root app p st =
       (Return tt,
        emitted st [failed ("[Errno 20] Not a directory: '"
                            +:+ path_str app p +:+ "'")])).
Proof.
  cbn zeta. unfold remove_namespace_root, try_except, mbind, M_bind.
  rewrite rmdir_eq. unfold nothing_at. repeat split.
  - by intros -> ->.
  - intros Hway. by rewrite (not_a_directory_lstat _ _ Hway), Hway.
  - intros ->. by rewrite map_to_list_empty.
  - intros entries -> Hne.
    destruct (map_to_list entries) eqn:Hl; [|done].
    by apply map_to_list_empty_iff in Hl.
  - intros n -> Hn. by destruct n.
Qed.

Lemma namespace_root_by_kind_witness :
  remove_namespace_root app ["ns"] (start (Some File)) =
    (Return tt,
     emitted (start (Some File))
       [Log WARNING ("Failed to remove collection namespace root: "
          +:+ "[Errno 20] Not a directory: '" +:+ path_str app ["ns"] +:+ "'")]).
Proof.
  exact (proj1 (proj2 (namespace_root_by_kind app ["ns"] (start (Some File))))
           eq_refl).
Defined.

Lemma lstat_root t : lstat t [] = t.
Proof. by destruct t. Qed.

Lemma remove_collection_root_eq app st :
  remove_collection_root app st =
    if exists_ (tree st) collection_root then
      match rmdir app collection_root st with
      | (Return _, s') =>
          (Return tt,
           emitted s' [Log INFO ("Removed collection root: "
                                 +:+ path_str app collection_root)])
      | (Raise e, s') =>
          if is_OSError e then
            if is_FileNotFoundError e then (Return tt, s')
            else (Return tt,
                  emitted s' [Log DEBUG ("Failed to remove collection root: "
                                         +:+ exn_str e)])
          else (Raise e, s')
      end
    else (Return tt, st).
Proof.
  unfold remove_collection_root.
  unfold mbind at 1, M_bind at 1, get_tree at 1.
  destruct (exists_ (tree st) collection_root); [|done]. cbn [negb].
  unfold try_except, mbind, M_bind.
  destruct (rmdir app collection_root st) as [[[]|e] s']; [done|].
  by destruct (is_OSError e), (is_FileNotFoundError e).
Qed.

(** X13: the removal of the collection root never raises either, and it
    is quieter.  A root that does not exist (or a link that dangles) ends
    the operation without a record; an empty directory is removed, with
    an info record; a directory that is not empty, or anything that is no
    directory, stays and is reported at debug level only. *)
Theorem collection_root_by_kind app st :
  let failed msg := Log DEBUG ("Failed to remove collection root: " +:+ msg) in
  (stat (tree st) collection_root = None →
   remove_collection_root app st = (Return tt, st))
  ∧ (tree st = Some (Dir ∅) →
     remove_collection_root app st =
       (Return tt,
        {| tree := None;
           trace := trace st
             ++ [Log INFO ("Removed collection root: " +:+ collection_root_str app)] |}))
  ∧ (∀ entries, tree st = Some (Dir entries) → entries ≠ ∅ →
     remove_collection_root app st =
       (Return tt,
        emitted st [failed ("[Errno 39] Directory not empty: '"
                            +:+ collection_root_str app +:+ "'")]))
  ∧ (∀ n, tree st = Some n → is_dir_node n = false → deref n ≠ None →
     remove_collection_root app st =
       (Return tt,
        emitted st [failed ("[Errno 20] Not a directory: '"
                            +:+ collection_root_str app +:+ "'")])).
Proof.
  cbn zeta. rewrite remove_collection_root_eq, rmdir_eq.
  unfold exists_, stat, collection_root. rewrite lstat_root.
  repeat split.
  - by intros ->.
  - intros ->. cbn. by rewrite map_to_list_empty.
  - intros entries -> Hne. cbn.
    destruct (map_to_list entries) eqn:Hl; [|done].
    by apply map_to_list_empty_iff in Hl.
  - intros n -> Hn Hd. destruct n; cbn in *; congruence.
Qed.

Lemma collection_root_by_kind_witness :
  remove_collection_root app (start (Some installed)) =
    (Return tt,
     emitted (start (Some installed))
       [Log DEBUG ("Failed to remove collection root: "
          +:+ "[Errno 39] Directory not empty: '" +:+ collection_root_str app +:+ "'")]).
Proof.
  exact (proj1 (proj2 (proj2 (collection_root_by_kind app (start (Some installed))))) _
           eq_refl ltac:(vm_compute; discriminate)).
Defined.

(** X14: only the first loop can make [_remove_collections] raise: the
    operation raises exactly when the loop over the names does, with the
    same exception and in the state the loop has reached; the two [rmdir]
    phases are never the cause. *)
Theorem only_the_first_loop_raises app st e st' :
  _remove_collections app st = (Raise e, st')
  ↔ foldM (remove_collection app) (collection_names app) [] st = (Raise e, st').
Proof.
  unfold _remove_collections. unfold mbind at 1, M_bind at 1.
  destruct (foldM _ _ [] st) as [[roots|e1] sA];
    [|split; intros [= <- <-]; reflexivity].
  destruct (remove_namespace_roots_return app roots sA) as [sB Hroots].
  rewrite (bind_Return _ _ _ _ _ Hroots).
  destruct (remove_collection_root_returns app sB) as [sC ->].
  split; discriminate.
Qed.

(** ** Requirements that fail to uninstall *)

Lemma pip_uninstall_runs app env requirements_file size st :
  file_size env requirements_file = Some size → size ≠ 0%Z →
  _pip_uninstall app env requirements_file st =
    let command := uninstall_command app requirements_file in
    let after :=
      {| tree := (shell env command (tree st)).2;
         trace := trace st
           ++ [Log INFO ("Uninstalling python requirements from " +:+ requirements_file);
               Log DEBUG ("Running command: " +:+ command);
               Exec command] |} in
    if decide ((shell env command (tree st)).1 = 0%Z) then (Return tt, after)
    else (Raise (uninstall_failure app requirements_file
                   (shell env command (tree st)).1), after).
Proof.
  intros Hsize Hne. unfold _pip_uninstall. rewrite Hsize.
  destruct (decide (size = 0%Z)); [done|]. cbn zeta.
  unfold subprocess_run, try_except, mbind, M_bind, log, emit, get_tree, put_tree,
    raise. cbn [emitted tree trace].
  destruct (shell env _ (tree st)) as [rc t'] eqn:Hshell. cbn [fst snd].
  rewrite !emitted_twice. cbn [Datatypes.app emitted trace mret M_ret].
  by destruct (decide (rc = 0%Z)).
Qed.

(** X9: when the target is accepted and the uninstall of the main
    requirements file fails, [run] raises [RuntimeError] right there: the
    test requirements are not looked at and no collection is removed; the
    tree is what the command left.  The same holds, one step later, when
    the main requirements went through and the test requirements fail. *)
Theorem failed_uninstall_stops_run app C env st :
  collection_specifier app = collection_name app ∨ collection_specifier app = "." →
  (∀ size,
     file_size env (REQUIREMENTS_PY C) = Some size → size ≠ 0%Z →
     (shell env (uninstall_command app (REQUIREMENTS_PY C)) (tree st)).1 ≠ 0%Z →
     run app C env st = _pip_uninstall app env (REQUIREMENTS_PY C) st
     ∧ ∃ st', run app C env st =
         (Raise (uninstall_failure app (REQUIREMENTS_PY C)
                   (shell env (uninstall_command app (REQUIREMENTS_PY C)) (tree st)).1),
          st')
         ∧ tree st' = (shell env (uninstall_command app (REQUIREMENTS_PY C)) (tree st)).2)
  ∧ (∀ s1 size,
       _pip_uninstall app env (REQUIREMENTS_PY C) st = (Return tt, s1) →
       file_size env (TEST_REQUIREMENTS_PY C) = Some size → size ≠ 0%Z →
       (shell env (uninstall_command app (TEST_REQUIREMENTS_PY C)) (tree s1)).1 ≠ 0%Z →
       run app C env st = _pip_uninstall app env (TEST_REQUIREMENTS_PY C) s1
       ∧ ∃ st', run app C env st =
           (Raise (uninstall_failure app (TEST_REQUIREMENTS_PY C)
                     (shell env (uninstall_command app (TEST_REQUIREMENTS_PY C))
                        (tree s1)).1),
            st')
           ∧ tree st' =
               (shell env (uninstall_command app (TEST_REQUIREMENTS_PY C)) (tree s1)).2).
Proof.
  intros Htarget.
  assert (run app C env st =
            (_ ← _pip_uninstall app env (REQUIREMENTS_PY C);
             _ ← _pip_uninstall app env (TEST_REQUIREMENTS_PY C);
             _remove_collections app) st) as Hrun.
  { unfold run. destruct Htarget as [Ht|Ht].
    - by rewrite (bool_decide_eq_true_2 _ Ht).
    - rewrite (bool_decide_eq_true_2 (collection_specifier app = ".") Ht).
      by rewrite orb_true_r. }
  split.
  - intros size Hsize Hne Hfail.
    pose proof (pip_uninstall_runs app env _ _ st Hsize Hne) as Hpip.
    cbn zeta in Hpip. rewrite decide_False in Hpip by done.
    assert (run app C env st = _pip_uninstall app env (REQUIREMENTS_PY C) st) as Heq
      by (rewrite Hrun; unfold mbind at 1, M_bind at 1; by rewrite Hpip).
    split; [done|]. rewrite Heq, Hpip. by eexists.
  - intros s1 size Hfirst Hsize Hne Hfail.
    pose proof (pip_uninstall_runs app env _ _ s1 Hsize Hne) as Hpip.
    cbn zeta in Hpip. rewrite decide_False in Hpip by done.
    assert (run app C env st = _pip_uninstall app env (TEST_REQUIREMENTS_PY C) s1)
      as Heq
      by (rewrite Hrun, (bind_Return _ _ _ _ _ Hfirst);
          unfold mbind at 1, M_bind at 1; by rewrite Hpip).
    split; [done|]. rewrite Heq, Hpip. by eexists.
Qed.

Lemma failed_uninstall_stops_run_witness :
  ∃ st',
    run app UnExamples.C failing_pip (start (Some installed)) =
      (Raise (uninstall_failure app (REQUIREMENTS_PY UnExamples.C) 1), st')
    ∧ tree st' = Some installed.
Proof.
  exact (proj2 (proj1 (failed_uninstall_stops_run app UnExamples.C failing_pip
                         (start (Some installed)) (or_intror eq_refl))
                  10%Z eq_refl ltac:(discriminate) ltac:(vm_compute; discriminate))).
Defined.

(** ** What a completed removal leaves *)

(** X16: when [_remove_collections] returns, no collection of the list
    is left: every name splits, its collection path does not exist and,
    where its namespace directory still exists, the collection root holds
    no install-metadata directory of that name. *)
Theorem removed_collections_are_gone app st st' :
  _remove_collections app st = (Return tt, st') →
  ∀ collection_name,
    collection_name ∈ collection_names app →
    ∃ namespace name,
      split_name collection_name = Return (namespace, name)
      ∧ exists_ (tree st')
          (path_join (path_join collection_root namespace) name) = false
      ∧ (exists_ (tree st') (path_join collection_root namespace) = true →
         ∀ entry_name,
           entry_matches collection_name entry_name
             (lstat (tree st') [entry_name]) = false).
Proof.
  intros Hrun n Hn.
  pose proof (first_run_cleans _ _ _ Hrun) as Hclean.
  rewrite Forall_forall in Hclean. specialize (Hclean n Hn).
  unfold clean in Hclean.
  destruct (split_name n) as [[namespace name]|]; [|done].
  exists namespace, name. destruct Hclean as [Hgone Hmeta].
  split; [done|]. split; [done|]. intros Hns. by apply Hmeta.
Qed.

Lemma removed_collections_are_gone_witness :
  ∃ namespace name,
    split_name "ns.name" = Return (namespace, name)
    ∧ exists_ (tree (_remove_collections app (start (Some installed))).2)
        (path_join (path_join collection_root namespace) name) = false
    ∧ (exists_ (tree (_remove_collections app (start (Some installed))).2)
         (path_join collection_root namespace) = true →
       ∀ entry_name,
         entry_matches "ns.name" entry_name
           (lstat (tree (_remove_collections app (start (Some installed))).2)
              [entry_name]) = false).
Proof.
  exact (removed_collections_are_gone app (start (Some installed)) _
           ltac:(vm_compute; reflexivity) "ns.name"
           ltac:(apply list_elem_of_further, list_elem_of_here)).
Defined.

(** ** Nothing installed *)






(** ** Names that extend one another *)

Lemma prefix_trans a b c :
  String.prefix a b = true → String.prefix b c = true → String.prefix a c = true.
Proof.
  revert b c. induction a as [|x a IH]; intros b c; [by destruct c|].
  destruct b as [|y b]; [done|]. destruct c as [|z c]; [done|]. cbn.
  destruct (Ascii.ascii_dec x y) as [->|]; [|done].
  destruct (Ascii.ascii_dec y z) as [->|]; [|done]. apply IH.
Qed.

(** X18: the scan tests the entry's name with [startswith].  The scan for
    a collection therefore also removes the install metadata of every
    collection whose name starts with its name: what the scan for the
    longer name would match, the scan for the shorter one removes. *)
Theorem scan_takes_metadata_of_longer_names app shorter longer st st' e :
  startswith longer shorter = true →
  remove_infos app shorter st = (Return tt, st') →
  entry_matches longer e (lstat (tree st) [e]) = true →
  lstat (tree st') [e] = None.
Proof.
  intros Hprefix Hrun Hmatch.
  destruct (remove_infos_returns _ _ _ _ Hrun) as [_ Hscan].
  rewrite Hscan.
  assert (entry_matches shorter e (lstat (tree st) [e]) = true) as ->; [|done].
  revert Hmatch. unfold entry_matches, startswith in *.
  destruct (match lstat (tree st) [e] ≫= deref with Some (Dir _) => true | _ => false end);
    [|done].
  destruct (String.prefix longer e) eqn:Hlong; [|done]. cbn.
  by rewrite (prefix_trans _ _ _ Hprefix Hlong).
Qed.

Lemma scan_takes_metadata_of_longer_names_witness :
  lstat (tree (remove_infos app "ns.name" (start (Some linked))).2)
    ["ns.name_extras-2.0.0.info"] = None.
Proof.
  exact (scan_takes_metadata_of_longer_names app "ns.name" "ns.name_extras"
           (start (Some linked)) _ "ns.name_extras-2.0.0.info"
           eq_refl ltac:(vm_compute; reflexivity) eq_refl).
Defined.

(** ** Relations that every step of the removal keeps *)

Section Preserved.
Variable R : state → state → Prop.
Hypothesis R_refl : ∀ st, R st st.
Hypothesis R_trans : ∀ s1 s2 s3, R s1 s2 → R s2 s3 → R s1 s3.
Hypothesis R_log : ∀ st lvl msg, R st (emitted st [Log lvl msg]).

(** The paths whose removal keeps [R]. *)
Variable ok : path → Prop.
Hypothesis R_remove :
  ∀ st p, ok p → lstat (tree st) p ≠ None → R st (removed st p).
Hypothesis R_rmdir :
  ∀ st p, (length p ≤ 1)%nat → lstat (tree st) p = Some (Dir ∅) → R st (removed st p).

Lemma preserves_ret {A} (a : A) : preserves R (mret a).
Proof. intros st r st' [= <- <-]. apply R_refl. Qed.

Lemma preserves_raise {A} e : preserves R (raise (A:=A) e).
Proof. intros st r st' [= <- <-]. apply R_refl. Qed.

Lemma preserves_lift {A} (x : result A) : preserves R (lift x).
Proof. intros st r st' [= <- <-]. apply R_refl. Qed.

Lemma preserves_log lvl msg : preserves R (log lvl msg).
Proof. intros st r st' [= <- <-]. apply R_log. Qed.

Lemma preserves_bind {A B} (m : M state A) (f : A → M state B) :
  preserves R m → (∀ a, preserves R (f a)) → preserves R (m ≫= f).
Proof.
  intros Hm Hf st r st'. unfold mbind, M_bind.
  destruct (m st) as [[a|e] s1] eqn:Hrun.
  - intros Hrest. eapply R_trans; [by eapply Hm|by eapply Hf].
  - intros [= <- <-]. by eapply Hm.
Qed.

Lemma preserves_get_bind {A} (f : option node → M state A) :
  (∀ t, preserves R (f t)) → preserves R (get_tree ≫= f).
Proof.
  intros Hf. apply preserves_bind; [|done].
  intros st r st' [= <- <-]. apply R_refl.
Qed.

Lemma preserves_try_except {A} (body : M state A) handled handler :
  preserves R body → (∀ e, preserves R (handler e)) →
  preserves R (try_except body handled handler).
Proof.
  intros Hbody Hhandler st r st'. unfold try_except.
  destruct (body st) as [[a|e] s1] eqn:Hrun.
  - intros [= <- <-]. by eapply Hbody.
  - destruct (handled e).
    + intros Hrest. eapply R_trans; [by eapply Hbody|by eapply Hhandler].
    + intros [= <- <-]. by eapply Hbody.
Qed.

Lemma preserves_forM_ {A} (f : A → M state unit) l :
  (∀ a, a ∈ l → preserves R (f a)) → preserves R (forM_ f l).
Proof.
  induction l as [|a l IH]; intros Hf; cbn [forM_].
  - apply preserves_ret.
  - apply preserves_bind; [apply Hf; left|]. intros _. apply IH.
    intros a' Ha'. apply Hf. by right.
Qed.

Lemma preserves_foldM {A B} (f : A → B → M state B) l :
  (∀ a b, a ∈ l → preserves R (f a b)) → ∀ b, preserves R (foldM f l b).
Proof.
  induction l as [|a l IH]; intros Hf b; cbn [foldM].
  - apply preserves_ret.
  - apply preserves_bind; [apply Hf; left|]. intros b'. apply IH.
    intros a' b'' Ha'. apply Hf. by right.
Qed.

Variable app : App.

Lemma preserves_rmtree p : ok p → preserves R (rmtree app p).
Proof.
  intros Hok st r st'. rewrite rmtree_eq.
  destruct (lstat (tree st) p) as [[]|] eqn:Hl; intros [= <- <-];
    first [apply R_refl|apply (R_remove st p Hok); by rewrite Hl].
Qed.

Lemma preserves_unlink p : ok p → preserves R (unlink app p).
Proof.
  intros Hok st r st'. rewrite unlink_eq.
  destruct (lstat (tree st) p) as [[]|] eqn:Hl; intros [= <- <-];
    first [apply R_refl|apply (R_remove st p Hok); by rewrite Hl].
Qed.

Lemma preserves_rmdir p : (length p ≤ 1)%nat → preserves R (rmdir app p).
Proof.
  intros Hshort st r st'. rewrite rmdir_eq.
  destruct (lstat (tree st) p) as [[|m| | |]|] eqn:Hl;
    try (intros [= <- <-]; apply R_refl).
  destruct (map_to_list m) eqn:Hm; intros [= <- <-]; [|apply R_refl].
  apply map_to_list_empty_iff in Hm as ->. by apply R_rmdir.
Qed.

Lemma preserves_iterdir p : preserves R (iterdir app p).
Proof.
  intros st r st'. rewrite iterdir_eq.
  destruct (stat (tree st) p) as [[]|]; intros [= <- <-]; apply R_refl.
Qed.

Lemma preserves_remove_info collection_name e :
  (startswith e collection_name = true → suffix e = ".info" → ok [e]) →
  preserves R (remove_info app collection_name e).
Proof.
  intros Hok. unfold remove_info. cbn zeta.
  apply preserves_get_bind. intros t.
  destruct (is_dir t _); [|apply preserves_ret].
  destruct (startswith e collection_name); [|apply preserves_ret].
  destruct (bool_decide_reflect (suffix e = ".info")) as [Hs|]; [|apply preserves_ret].
  cbn [andb].
  apply preserves_bind; [by apply preserves_rmtree, Hok|].
  intros _. apply preserves_log.
Qed.

Lemma preserves_remove_infos collection_name :
  (∀ e, startswith e collection_name = true → suffix e = ".info" → ok [e]) →
  preserves R (remove_infos app collection_name).
Proof.
  intros Hok. apply preserves_bind; [apply preserves_iterdir|].
  intros ks. apply preserves_forM_. intros e _. by apply preserves_remove_info, Hok.
Qed.

Lemma preserves_remove_collection_path collection_name p :
  ok p → preserves R (remove_collection_path app collection_name p).
Proof.
  intros Hok. apply preserves_get_bind. intros t.
  destruct (exists_ t p); [|apply preserves_log].
  apply preserves_bind; [apply preserves_log|intros _].
  apply preserves_get_bind. intros t'.
  apply preserves_bind; [|intros _; apply preserves_log].
  destruct (is_symlink t' p); [by apply preserves_unlink|by apply preserves_rmtree].
Qed.

Lemma preserves_remove_collection collection_name roots :
  (∀ namespace name,
     split_name collection_name = Return (namespace, name) →
     ok (path_join (path_join collection_root namespace) name)) →
  (∀ e, startswith e collection_name = true → suffix e = ".info" → ok [e]) →
  preserves R (remove_collection app collection_name roots).
Proof.
  intros Hpath Hentries st r st'.
  destruct (split_name collection_name) as [[namespace name]|e] eqn:Hsplit.
  - rewrite (remove_collection_eq _ _ _ _ _ _ Hsplit). cbn zeta.
    destruct (remove_collection_path _ _ _ _) as [r1 s1] eqn:Hrm.
    assert (R st s1) as Hs1.
    { eapply R_trans; [apply R_log|].
      eapply preserves_remove_collection_path; [by apply Hpath|exact Hrm]. }
    destruct r1 as [[]|e]; [|by intros [= <- <-]].
    destruct (exists_ (tree s1) _); [|by intros [= <- <-]].
    destruct (remove_infos app collection_name s1) as [r2 s2] eqn:Hscan.
    assert (R s1 s2) as Hs2 by (by eapply preserves_remove_infos).
    destruct r2 as [[]|e]; intros [= <- <-]; by eapply R_trans.
  - unfold remove_collection, mbind, M_bind, lift. rewrite Hsplit.
    intros [= <- <-]. apply R_refl.
Qed.

Lemma preserves_remove_namespace_root p :
  (length p ≤ 1)%nat → preserves R (remove_namespace_root app p).
Proof.
  intros Hshort. apply preserves_try_except.
  - apply preserves_bind; [by apply preserves_rmdir|intros _; apply preserves_log].
  - intros e. destruct (is_FileNotFoundError e);
      [apply preserves_ret|apply preserves_log].
Qed.

Lemma preserves_remove_collection_root : preserves R (remove_collection_root app).
Proof.
  apply preserves_get_bind. intros t.
  destruct (negb _); [apply preserves_ret|].
  apply preserves_try_except.
  - apply preserves_bind; [|intros _; apply preserves_log].
    apply preserves_rmdir. cbn. lia.
  - intros e. destruct (is_FileNotFoundError e);
      [apply preserves_ret|apply preserves_log].
Qed.

Lemma namespace_roots_short names :
  ∀ roots st roots' st',
    Forall (λ p : path, (length p ≤ 1)%nat) roots →
    foldM (remove_collection app) names roots st = (Return roots', st') →
    Forall (λ p : path, (length p ≤ 1)%nat) roots'.
Proof.
  induction names as [|n names IH]; intros roots st roots' st' Hroots.
  - by intros [= <- <-].
  - rewrite foldM_cons.
    destruct (remove_collection app n roots st) as [[roots1|e] s1] eqn:Hstep;
      [|done].
    apply IH.
    destruct (split_name n) as [[namespace name]|e] eqn:Hsplit.
    + rewrite (remove_collection_eq _ _ _ _ _ _ Hsplit) in Hstep. cbn zeta in Hstep.
      assert (roots1 = roots ++ [path_join collection_root namespace]) as ->.
      { destruct (remove_collection_path _ _ _ _) as [[[]|] ?]; [|done].
        destruct (exists_ _ _); [|by simplify_eq].
        destruct (remove_infos _ _ _) as [[[]|] ?]; by simplify_eq. }
      apply Forall_app. split; [done|]. apply Forall_singleton.
      unfold path_join, collection_root. case_decide; cbn; lia.
    + unfold remove_collection, mbind, M_bind, lift in Hstep.
      by rewrite Hsplit in Hstep.
Qed.

Lemma preserves_remove_collections :
  (∀ n namespace name,
     n ∈ collection_names app →
     split_name n = Return (namespace, name) →
     ok (path_join (path_join collection_root namespace) name)) →
  (∀ n e,
     n ∈ collection_names app →
     startswith e n = true → suffix e = ".info" → ok [e]) →
  preserves R (_remove_collections app).
Proof.
  intros Hpaths Hentries st r st'. unfold _remove_collections.
  unfold mbind at 1, M_bind at 1.
  destruct (foldM _ _ [] st) as [r1 sA] eqn:Hloop.
  assert (R st sA) as HsA.
  { eapply (preserves_foldM (remove_collection app)); [|exact Hloop].
    intros n roots Hn. apply preserves_remove_collection.
    - intros ns leaf. by apply Hpaths.
    - intros e. by apply Hentries. }
  destruct r1 as [roots|e]; [|by intros [= <- <-]].
  pose proof (namespace_roots_short _ _ _ _ _ (Forall_nil_2 _) Hloop) as Hshort.
  unfold mbind at 1, M_bind at 1.
  destruct (forM_ _ roots sA) as [r2 sB] eqn:Hroots.
  assert (R sA sB) as HsB.
  { eapply (preserves_forM_ (remove_namespace_root app)); [|exact Hroots].
    intros p Hp. apply preserves_remove_namespace_root.
    rewrite Forall_forall in Hshort. by apply Hshort. }
  destruct r2 as [[]|e]; [|intros [= <- <-]; by eapply R_trans].
  intros Hroot. eapply R_trans; [exact HsA|]. eapply R_trans; [exact HsB|].
  by eapply preserves_remove_collection_root.
Qed.
End Preserved.

(** ** Only removals, only log records *)

Lemma logged_refl st : logged st st.
Proof. exists []. by rewrite app_nil_r. Qed.

Lemma logged_trans s1 s2 s3 : logged s1 s2 → logged s2 s3 → logged s1 s3.
Proof.
  intros (es1 & H1 & Hl1) (es2 & H2 & Hl2). exists (es1 ++ es2).
  split; [by rewrite H2, H1, <- (assoc_L (++))|by apply Forall_app].
Qed.

Lemma logged_log st lvl msg : logged st (emitted st [Log lvl msg]).
Proof. exists [Log lvl msg]. split; [done|by repeat constructor]. Qed.

Lemma logged_removed st p : logged st (removed st p).
Proof. exists []. by rewrite app_nil_r. Qed.

Lemma shrinking_remove_collections app : shrinking (_remove_collections app).
Proof.
  apply shrinking_bind.
  - apply shrinking_foldM. intros n roots. apply shrinking_remove_collection.
  - intros roots. apply shrinking_bind.
    + apply shrinking_forM_. intros p. apply shrinking_remove_namespace_root.
    + intros _. apply shrinking_remove_collection_root.
Qed.

Lemma logged_remove_collections app st r st' :
  _remove_collections app st = (r, st') → logged st st'.
Proof.
  apply (preserves_remove_collections logged logged_refl logged_trans logged_log
           (λ _, True)); try done.
  - intros. apply logged_removed.
  - intros. apply logged_removed.
Qed.

(** X15: whatever its outcome, [_remove_collections] only removes and
    only logs: whatever a path reaches in the tree it leaves, the path
    reached in the tree it found, as the same kind of thing; and the trace
    has only gained log records, so no command was run. *)
Theorem removal_only_removes_and_logs app st r st' :
  _remove_collections app st = (r, st') →
  shrinks (tree st') (tree st) ∧ logged st st'.
Proof.
  intros Hrun. split.
  - by eapply shrinking_remove_collections.
  - by eapply logged_remove_collections.
Qed.

Lemma removal_only_removes_and_logs_witness :
  shrinks (tree (_remove_collections app (start (Some installed))).2) (Some installed)
  ∧ logged (start (Some installed))
      (_remove_collections app (start (Some installed))).2.
Proof.
  exact (removal_only_removes_and_logs app (start (Some installed)) (Return tt) _
           ltac:(vm_compute; reflexivity)).
Defined.

Lemma pip_uninstall_skips app env requirements_file st :
  file_size env requirements_file = None
  ∨ file_size env requirements_file = Some 0%Z →
  ∃ msg, _pip_uninstall app env requirements_file st
           = (Return tt, emitted st [Log INFO msg]).
Proof.
  unfold _pip_uninstall. intros [-> | ->]; by eexists.
Qed.

(** X10: when neither requirements file exists with content (each is
    missing or empty), [run] executes no command at all, whatever the
    target and the tree: the trace only gains log records, and the tree
    only loses entries. *)
Theorem no_requirements_no_command app C env st r st' :
  file_size env (REQUIREMENTS_PY C) = None
  ∨ file_size env (REQUIREMENTS_PY C) = Some 0%Z →
  file_size env (TEST_REQUIREMENTS_PY C) = None
  ∨ file_size env (TEST_REQUIREMENTS_PY C) = Some 0%Z →
  run app C env st = (r, st') →
  logged st st' ∧ shrinks (tree st') (tree st).
Proof.
  intros Hmain Htest. unfold run.
  destruct (negb _).
  - intros [= <- <-]. split; [apply logged_log|apply shrinks_refl].
  - destruct (pip_uninstall_skips app env _ st Hmain) as [m1 H1].
    rewrite (bind_Return _ _ _ _ _ H1).
    destruct (pip_uninstall_skips app env _ (emitted st [Log INFO m1]) Htest)
      as [m2 H2].
    rewrite (bind_Return _ _ _ _ _ H2). intros Hrun.
    pose proof (shrinking_remove_collections _ _ _ _ Hrun) as Hsh.
    pose proof (logged_remove_collections _ _ _ _ Hrun) as Hlog.
    split; [|done].
    eapply logged_trans; [apply logged_log|].
    eapply logged_trans; [apply logged_log|exact Hlog].
Qed.

Lemma no_requirements_no_command_witness :
  logged (start (Some installed))
    (run app UnExamples.C no_requirements (start (Some installed))).2
  ∧ shrinks (tree (run app UnExamples.C no_requirements (start (Some installed))).2)
      (Some installed).
Proof.
  exact (no_requirements_no_command app UnExamples.C no_requirements
           (start (Some installed)) (Return tt) _
           (or_introl eq_refl) (or_introl eq_refl) ltac:(vm_compute; reflexivity)).
Defined.

(** ** Collections that are not in the list *)







End UnInstallerMore.
